(** * ML-Email-Automation: the processing cycle and its three collaborators

  A shallow embedding of [src/main.py], [src/model_predictor.py],
  [src/automation_engine.py], [src/email_handler.py] and [src/logger.py].

  Python code that prints, logs, talks to a remote service or raises is
  written in a state-and-exception monad: a computation takes the state
  and gives back an outcome (a value or a raised exception) together
  with the new state.  Effects performed before a [raise] stay in the
  state, as they do in Python. *)

From Stdlib Require Import List String Ascii Bool Arith Lia ZArith DecimalString.
From Stdlib Require Import Floats.PrimFloat.
Import ListNotations.

Set Implicit Arguments.

(** A decimal literal such as [0.85] denotes the nearest binary64, as it
    does in Python. *)
Set Warnings "-inexact-float".

(* ================================================================== *)
(** ** Python exceptions and the effect monad *)
(* ================================================================== *)

Module Py.

(** The exception classes that occur in the sources or can come out of
    the libraries they call.  [KeyboardInterrupt] and [SystemExit] derive
    from [BaseException] only; every other class derives from
    [Exception]. *)
Inductive exn_class : Type :=
  | HttpError            (* googleapiclient.errors.HttpError *)
  | WebDriverException   (* selenium.common.exceptions *)
  | ConnectionError      (* builtin, an OSError *)
  | KeyError
  | IndexError
  | TypeError
  | ValueError
  | AttributeError
  | RuntimeError
  | KeyboardInterrupt
  | SystemExit.

Record exn : Type := mk_exn { exn_cls : exn_class; exn_str : string }.

(** [isinstance(e, Exception)]: what [except Exception] catches. *)
Definition is_Exception (e : exn) : bool :=
  match exn_cls e with
  | KeyboardInterrupt | SystemExit => false
  | _ => true
  end.

(** [isinstance(e, HttpError)]: what [except HttpError] catches. *)
Definition is_HttpError (e : exn) : bool :=
  match exn_cls e with
  | HttpError => true
  | _ => false
  end.

Inductive outcome (A : Type) : Type :=
  | Ret (a : A)
  | Raise (e : exn).
Arguments Ret {A} a.
Arguments Raise {A} e.

Definition M (S A : Type) : Type := S -> outcome A * S.

Definition ret {S A} (a : A) : M S A := fun s => (Ret a, s).

Definition raise {S A} (e : exn) : M S A := fun s => (Raise e, s).

Definition bind {S A B} (m : M S A) (k : A -> M S B) : M S B :=
  fun s =>
    match m s with
    | (Ret a, s') => k a s'
    | (Raise e, s') => (Raise e, s')
    end.

(** A pure call that may raise, such as a library function. *)
Definition lift {S A} (o : outcome A) : M S A := fun s => (o, s).

(** [try: body / except <class> as e: handler e]. *)
Definition try_except {S A}
    (body : M S A) (catches : exn -> bool) (handler : exn -> M S A) : M S A :=
  fun s =>
    match body s with
    | (Ret a, s') => (Ret a, s')
    | (Raise e, s') => if catches e then handler e s' else (Raise e, s')
    end.

(** [for x in xs: body x]. *)
Fixpoint for_each {S A} (xs : list A) (body : A -> M S unit) : M S unit :=
  match xs with
  | [] => ret tt
  | x :: xs' => bind (body x) (fun _ => for_each xs' body)
  end.

(** [[f(x) for x in xs]]: the results are appended in iteration order. *)
Fixpoint comprehension {S A B}
    (f : A -> M S B) (xs : list A) (acc : list B) : M S (list B) :=
  match xs with
  | [] => ret acc
  | x :: xs' => bind (f x) (fun b => comprehension f xs' (acc ++ [b]))
  end.

(** [xs[i]] on a list; an index out of range raises [IndexError]. *)
Definition index {A} (xs : list A) (i : nat) : outcome A :=
  match nth_error xs i with
  | Some x => Ret x
  | None => Raise (mk_exn IndexError "list index out of range")
  end.

Definition returned {A} (o : outcome A) : option A :=
  match o with
  | Ret a => Some a
  | Raise _ => None
  end.

End Py.

Import Py.

Declare Scope py_scope.
Delimit Scope py_scope with py.
Notation "x <- m ;; k" := (bind m (fun x => k))
  (at level 61, m at next level, right associativity) : py_scope.
Notation "m ;;; k" := (bind m (fun _ => k))
  (at level 61, right associativity) : py_scope.
Local Open Scope py_scope.
Local Open Scope string_scope.

(** Python's [float] is an IEEE 754 binary64; the kernel's primitive floats
  are the same numbers with the same comparisons ([nan] compares false
  with everything). *)
Definition pyfloat : Set := PrimFloat.float.

(* ================================================================== *)
(** ** src/model_predictor.py *)
(* ================================================================== *)

Module ModelPredictor.

(** The loaded Keras model: [model.predict(padded, verbose=0)] gives a
    two-dimensional array of scores, or raises.  The scores of a Keras
    model are float32 or float64 numbers; each of them is a binary64, and
    comparing it with 0.5 or turning it into a [float] is exact.  A call
    is taken to be determined by its input, the weights being fixed once
    the model is loaded: a call that fails for a reason of its own (an
    interrupt, a lack of memory) while another call on the same input
    goes through is outside this model. *)
Record Model (ndarray : Type) : Type :=
  { model_predict : ndarray -> outcome (list (list pyfloat)) }.

(** The unpickled tokenizer. *)
Record Tokenizer : Type :=
  { texts_to_sequences : list string -> outcome (list (list Z)) }.

Section Predictor.

(** Library functions used by the module: the array type that
    [pad_sequences] builds, [str.lower] and [pad_sequences] itself. *)
Variable ndarray : Type.
Variable str_lower : string -> string.
Variable pad_sequences : list (list Z) -> Z -> outcome ndarray.

(** The attributes of a [ModelPredictor] object.  [max_length] is only
    assigned when both files loaded (line 27). *)
Record t : Type :=
  { model : option (Model ndarray);
    tokenizer : option Tokenizer;
    max_length : option Z }.

(** The state is what [print] has written so far. *)
Definition stdout : Type := list string.

Definition print (line : string) : M stdout unit :=
  fun out => (Ret tt, (out ++ [line])%list).

(** [__init__], given what [load_model] and [pickle.load] do. *)
Definition init (load_model : outcome (Model ndarray))
                (load_tokenizer : outcome Tokenizer) : M stdout t :=
  try_except
    (m <- lift load_model ;;
     tk <- lift load_tokenizer ;;
     ret {| model := Some m; tokenizer := Some tk; max_length := Some 100%Z |})
    is_Exception
    (fun e =>
       print ("Error loading model: " ++ exn_str e) ;;;
       ret {| model := None; tokenizer := None; max_length := None |}).

(** [preprocess_text]: [None] when there is no tokenizer. *)
Definition preprocess_text (self : t) (text : string)
  : M stdout (option ndarray) :=
  match tokenizer self with
  | None => ret None
  | Some tk =>
      let text := str_lower text in
      sequences <- lift (texts_to_sequences tk [text]) ;;
      maxlen <- lift (match max_length self with
                      | Some n => Ret n
                      | None => Raise (mk_exn AttributeError "max_length")
                      end) ;;
      padded <- lift (pad_sequences sequences maxlen) ;;
      ret (Some padded)
  end.

(** [self.model and self.tokenizer], as the guards of lines 63 and 88
    read the two attributes. *)
Definition loaded (self : t) : bool :=
  match model self, tokenizer self with
  | Some _, Some _ => true
  | _, _ => false
  end.

(** [self.model.predict(processed, verbose=0)]; the caller has checked
    that the model is there. *)
Definition run_model (self : t) (processed : ndarray)
  : M stdout (list (list pyfloat)) :=
  match model self with
  | Some m => lift (model_predict m processed)
  | None => raise (mk_exn AttributeError "predict")
  end.

(** [prediction[0][0]]. *)
Definition first_score (prediction : list (list pyfloat)) : outcome pyfloat :=
  match index prediction 0 with
  | Ret row => index row 0
  | Raise e => Raise e
  end.

Definition predict (self : t) (email_text : string) : M stdout bool :=
  if negb (loaded self) then
    print "Model not loaded" ;;;
    ret false
  else
    try_except
      (processed <- preprocess_text self email_text ;;
       match processed with
       | None => ret false
       | Some processed =>
           prediction <- run_model self processed ;;
           score <- lift (first_score prediction) ;;
           ret (PrimFloat.ltb 0.5%float score)
       end)
      is_Exception
      (fun e =>
         print ("Prediction error: " ++ exn_str e) ;;;
         ret false).

Definition get_confidence_score (self : t) (email_text : string)
  : M stdout pyfloat :=
  if negb (loaded self) then
    ret 0%float
  else
    try_except
      (processed <- preprocess_text self email_text ;;
       match processed with
       | None => ret 0%float
       | Some processed =>
           prediction <- run_model self processed ;;
           score <- lift (first_score prediction) ;;
           ret score
       end)
      is_Exception
      (fun e =>
         print ("Confidence score error: " ++ exn_str e) ;;;
         ret 0%float).

Definition predict_batch (self : t) (email_list : list string)
  : M stdout (list bool) :=
  comprehension (predict self) email_list [].

End Predictor.

End ModelPredictor.

(* ================================================================== *)
(** ** Log records (the [logging] calls of main.py and automation_engine.py) *)
(* ================================================================== *)

Module Logger.

Inductive level : Type := DEBUG | INFO | WARNING | ERROR.

(** What a logging call was given.  Every message of the sources is a
    plain string except the verdict line of [process_emails], whose
    f-string formats the prediction and the confidence. *)
Inductive log_msg : Type :=
| Text (s : string)
| EmailVerdict (subject : string) (prediction : bool) (confidence : pyfloat).

Record record : Type :=
  { lvl : level;
    msg : log_msg;
    exc_info : bool }.

Definition info (s : string) : record :=
  {| lvl := INFO; msg := Text s; exc_info := false |}.
Definition debug (s : string) : record :=
  {| lvl := DEBUG; msg := Text s; exc_info := false |}.
Definition warning (s : string) : record :=
  {| lvl := WARNING; msg := Text s; exc_info := false |}.
Definition error (s : string) : record :=
  {| lvl := ERROR; msg := Text s; exc_info := false |}.
Definition error_exc (s : string) : record :=
  {| lvl := ERROR; msg := Text s; exc_info := true |}.

Definition is_error (r : record) : bool :=
  match lvl r with
  | ERROR => true
  | _ => false
  end.

(** The numeric value of a level in [logging], and
    [Logger.isEnabledFor]: a logger set to a level handles the calls at
    that level and above, and drops the others. *)
Definition levelno (l : level) : nat :=
  match l with
  | DEBUG => 10
  | INFO => 20
  | WARNING => 30
  | ERROR => 40
  end.

Definition is_enabled_for (logger_level l : level) : bool :=
  Nat.leb (levelno logger_level) (levelno l).

(** The strings interpolated into, or making up, the message. *)
Definition texts (r : record) : list string :=
  match msg r with
  | Text s => [s]
  | EmailVerdict subject _ _ => [subject]
  end.

(** [needle in haystack]. *)
Definition contains (needle haystack : string) : bool :=
  match String.index 0 needle haystack with
  | Some _ => true
  | None => false
  end.


End Logger.

(* ================================================================== *)
(** ** The e-mail dictionary built by [EmailHandler._parse_email] *)
(* ================================================================== *)

Module Gmail.

Record header : Type := { h_name : string; h_value : string }.

(** A MIME part: [part['mimeType']] and [part['body'].get('data', '')]. *)
Record part : Type := { mimeType : string; part_data : string }.

(** [message['payload']]: [parts] is [None] when the key is absent;
    [body_data] is [payload['body'].get('data', '')]. *)
Record payload : Type :=
  { headers : list header;
    parts : option (list part);
    body_data : string }.

Record message : Type :=
  { msg_id : string;
    labelIds : list string;
    msg_payload : payload }.

End Gmail.

(** The dictionary with keys ['id'], ['subject'], ['from'], ['body'] and
    ['raw'] (email_handler.py, lines 108-114). *)
Record email : Type :=
  { em_id : string;
    em_subject : string;
    em_from : string;
    em_body : string;
    em_raw : Gmail.message }.

(* ================================================================== *)
(** ** src/automation_engine.py *)
(* ================================================================== *)

Module AutomationEngine.

(** *** The pattern of [_extract_link]

    [http[s]?://(?:[a-zA-Z]|[0-9]|[$-_@.&+]|[!*\(\),]|(?:%[0-9a-fA-F][0-9a-fA-F]))+]

    A text is the string of its UTF-8 bytes.  All the characters of the
    pattern are ASCII, and no byte of a character outside ASCII is one, so
    the matches are those of the pattern on the code points. *)

Definition in_range (lo hi c : ascii) : bool :=
  Nat.leb (nat_of_ascii lo) (nat_of_ascii c) &&
  Nat.leb (nat_of_ascii c) (nat_of_ascii hi).

(** [[a-zA-Z]] *)
Definition is_alpha (c : ascii) : bool :=
  in_range "a" "z" c || in_range "A" "Z" c.

(** [[0-9]] *)
Definition is_digit (c : ascii) : bool := in_range "0" "9" c.

(** [[$-_@.&+]]: the range from [$] to [_], and four more characters. *)
Definition is_punct (c : ascii) : bool :=
  in_range "$" "_" c || Ascii.eqb c "@" || Ascii.eqb c "." ||
  Ascii.eqb c "&" || Ascii.eqb c "+".

(** [[!*\(\),]] *)
Definition is_sub_delim (c : ascii) : bool :=
  Ascii.eqb c "!" || Ascii.eqb c "*" || Ascii.eqb c "(" ||
  Ascii.eqb c ")" || Ascii.eqb c ",".

(** [[0-9a-fA-F]] *)
Definition is_hex (c : ascii) : bool :=
  is_digit c || in_range "a" "f" c || in_range "A" "F" c.

(** The four one-character alternatives, tried in the pattern's order. *)
Definition is_single (c : ascii) : bool :=
  if is_alpha c then true
  else if is_digit c then true
  else if is_punct c then true
  else is_sub_delim c.

(** [(?: ... )+] from the start of [s], greedy: the text matched by the
    repetitions and what is left.  Each repetition takes the first
    alternative that matches; nothing follows the group in the pattern,
    so no repetition is ever given back. *)
Fixpoint atoms (s : string) : string * string :=
  match s with
  | EmptyString => (EmptyString, EmptyString)
  | String c rest =>
      if is_single c then
        let (m, r) := atoms rest in (String c m, r)
      else
        match rest with
        | String h1 (String h2 rest') =>
            if Ascii.eqb c "%" && is_hex h1 && is_hex h2 then
              let (m, r) := atoms rest' in (String c (String h1 (String h2 m)), r)
            else (EmptyString, s)
        | _ => (EmptyString, s)
        end
  end.

(** [s] without the literal [lit] in front, when it starts with it. *)
Fixpoint strip_prefix (lit s : string) : option string :=
  match lit with
  | EmptyString => Some s
  | String a lit' =>
      match s with
      | String c s' => if Ascii.eqb a c then strip_prefix lit' s' else None
      | EmptyString => None
      end
  end.

(** [://] and one or more repetitions of the group. *)
Definition match_tail (s : string) : option string :=
  match strip_prefix "://" s with
  | Some r =>
      match atoms r with
      | (EmptyString, _) => None
      | (m, _) => Some ("://" ++ m)
      end
  | None => None
  end.

(** A match of the whole pattern that starts at the first character.
    [[s]?] is greedy: the [s] is taken when it is there, and given back
    only if the rest does not match after it. *)
Definition match_here (s : string) : option string :=
  match strip_prefix "http" s with
  | Some r =>
      match strip_prefix "s" r with
      | Some r' =>
          match match_tail r' with
          | Some m => Some ("https" ++ m)
          | None =>
              match match_tail r with
              | Some m => Some ("http" ++ m)
              | None => None
              end
          end
      | None =>
          match match_tail r with
          | Some m => Some ("http" ++ m)
          | None => None
          end
      end
  | None => None
  end.

(** [re.findall]: the matches from left to right, without overlap.
    [skip] counts the characters of the last match still to pass. *)
Fixpoint findall_from (skip : nat) (s : string) : list string :=
  match s with
  | EmptyString => []
  | String _ rest =>
      match skip with
      | S k => findall_from k rest
      | O =>
          match match_here s with
          | Some m => m :: findall_from (String.length m - 1) rest
          | None => findall_from 0 rest
          end
      end
  end.

Definition findall (text : string) : list string := findall_from 0 text.

(** [urls[0] if urls else None] *)
Definition _extract_link (text : string) : option string :=
  match findall text with
  | u :: _ => Some u
  | [] => None
  end.

(** *** The engine *)

(** The double quote, for the CSS selectors. *)
Definition dq : string := String (ascii_of_nat 34) EmptyString.

(** [input[type=<dq>email<dq>]] and its two siblings. *)
Definition css_email : string := "input[type=" ++ dq ++ "email" ++ dq ++ "]".
Definition css_text : string := "input[type=" ++ dq ++ "text" ++ dq ++ "]".
Definition css_submit : string :=
  "button[type=" ++ dq ++ "submit" ++ dq ++ "], input[type=" ++ dq ++ "submit" ++ dq ++ "]".

Section Engine.

(** The Selenium session: the browser's state, the handles that
    [find_elements] gives, and the four calls the module makes. *)
Variable browser : Type.
Variable element : Type.
Variable driver_get : string -> M browser unit.
Variable find_elements : string -> M browser (list element).
Variable send_keys : element -> string -> M browser unit.
Variable click : element -> M browser unit.

(** The engine's state: the browser session and the module's log. *)
Record state : Type :=
  { session : browser;
    elog : list Logger.record }.

Definition log (r : Logger.record) : M state unit :=
  fun st => (Ret tt, {| session := session st; elog := (elog st ++ [r])%list |}).

(** A call on [self.driver]. *)
Definition on_driver {A} (m : M browser A) : M state A :=
  fun st =>
    let (o, b) := m (session st) in
    (o, {| session := b; elog := elog st |}).

(** The attributes of an [AutomationEngine]: [driver] is [None] when
    [webdriver.Chrome] raised in [_init_driver]. *)
Record t : Type :=
  { driver : bool;
    headless : bool }.

(** [__init__] with [_init_driver], given what [webdriver.Chrome] does. *)
Definition init (headless : bool) (chrome : outcome unit) : M state t :=
  d <- try_except
         (lift chrome ;;;
          log (Logger.info "Chrome WebDriver initialized") ;;;
          ret true)
         is_Exception
         (fun e =>
            log (Logger.error ("Error initializing WebDriver: " ++ exn_str e)) ;;;
            ret false) ;;
  log (Logger.info "Automation Engine initialized") ;;;
  ret {| driver := d; headless := headless |}.

Definition _fill_form (email_data : email) : M state unit :=
  try_except
    (email_fields <- on_driver (find_elements css_email) ;;
     match email_fields with
     | f :: _ =>
         on_driver (send_keys f (em_from email_data)) ;;;
         log (Logger.info "Email field filled")
     | [] => ret tt
     end ;;;
     name_fields <- on_driver (find_elements css_text) ;;
     match name_fields with
     | f :: _ =>
         on_driver (send_keys f "Participant") ;;;
         log (Logger.info "Name field filled")
     | [] => ret tt
     end)
    is_Exception
    (fun e => log (Logger.warning ("Error filling form: " ++ exn_str e))).

Definition _submit_form : M state unit :=
  try_except
    (submit_buttons <-
       on_driver (find_elements css_submit) ;;
     match submit_buttons with
     | b :: _ =>
         on_driver (click b) ;;;
         log (Logger.info "Form submitted")
     | [] => ret tt
     end)
    is_Exception
    (fun e => log (Logger.warning ("Error submitting form: " ++ exn_str e))).

Definition participate_in_giveaway (self : t) (email_data : email) : M state bool :=
  if negb (driver self) then
    log (Logger.error "WebDriver not initialized") ;;;
    ret false
  else
    try_except
      (match _extract_link (em_body email_data) with
       | None =>
           log (Logger.warning "No giveaway link found") ;;;
           ret false
       | Some giveaway_url =>
           log (Logger.info ("Navigating to giveaway: " ++ giveaway_url)) ;;;
           on_driver (driver_get giveaway_url) ;;;
           _fill_form email_data ;;;
           _submit_form ;;;
           log (Logger.info "Successfully participated in giveaway") ;;;
           ret true
       end)
      is_Exception
      (fun e =>
         log (Logger.error ("Error during giveaway participation: " ++ exn_str e)) ;;;
         ret false).

End Engine.

End AutomationEngine.

(* ================================================================== *)
(** ** src/email_handler.py *)
(* ================================================================== *)

Module EmailHandler.

(** The requests the module sends with [.execute()]. *)
Inductive request : Type :=
| ListMessages (q : string) (maxResults : Z)
| GetMessage (id : string)
| ModifyMessage (id : string) (removeLabelIds : list string).

Section Handler.

(** The remote side.  [search] is the service's own reading of a query:
    the identifiers it lists, in its order, for a mailbox.  [faults] says
    which requests the service or the transport answers with an
    exception.  [decode] is
    [base64.urlsafe_b64decode(data).decode('utf-8')]. *)
Variable search : string -> Z -> list Gmail.message -> list string.
Variable faults : request -> option exn.
Variable decode : string -> outcome string.

(** The mailbox held by the service, the requests sent so far, and what
    [print] has written. *)
Record state : Type :=
  { mailbox : list Gmail.message;
    requests : list request;
    stdout : list string }.

Definition print (line : string) : M state unit :=
  fun st =>
    (Ret tt,
     {| mailbox := mailbox st;
        requests := requests st;
        stdout := (stdout st ++ [line])%list |}).

Definition find_message (id : string) (mb : list Gmail.message)
  : option Gmail.message :=
  find (fun m => String.eqb (Gmail.msg_id m) id) mb.

Definition remove_labels (gone : list string) (m : Gmail.message)
  : Gmail.message :=
  {| Gmail.msg_id := Gmail.msg_id m;
     Gmail.labelIds :=
       filter (fun l => negb (existsb (String.eqb l) gone)) (Gmail.labelIds m);
     Gmail.msg_payload := Gmail.msg_payload m |}.

Definition not_found : exn := mk_exn HttpError "404".

(** The service's answer to a request and the mailbox it leaves. *)
Definition answer_list (q : string) (n : Z) (mb : list Gmail.message)
  : outcome (list string) := Ret (search q n mb).

Definition answer_get (id : string) (mb : list Gmail.message)
  : outcome Gmail.message :=
  match find_message id mb with
  | Some m => Ret m
  | None => Raise not_found
  end.

Definition answer_modify (id : string) (gone : list string)
    (mb : list Gmail.message) : outcome unit * list Gmail.message :=
  match find_message id mb with
  | Some _ =>
      (Ret tt,
       map (fun m => if String.eqb (Gmail.msg_id m) id
                     then remove_labels gone m else m) mb)
  | None => (Raise not_found, mb)
  end.

(** [request.execute()]: the request is recorded; a faulty one raises and
    leaves the mailbox alone. *)
Definition execute {A} (r : request)
    (answer : list Gmail.message -> outcome A * list Gmail.message)
  : M state A :=
  fun st =>
    let sent := (requests st ++ [r])%list in
    match faults r with
    | Some e =>
        (Raise e, {| mailbox := mailbox st; requests := sent; stdout := stdout st |})
    | None =>
        let (o, mb) := answer (mailbox st) in
        (o, {| mailbox := mb; requests := sent; stdout := stdout st |})
    end.

Definition reading {A} (answer : list Gmail.message -> outcome A)
  : list Gmail.message -> outcome A * list Gmail.message :=
  fun mb => (answer mb, mb).

(** [next((h['value'] for h in headers if h['name'] == name), default)] *)
Definition header_value (name default : string) (hs : list Gmail.header)
  : string :=
  match find (fun h => String.eqb (Gmail.h_name h) name) hs with
  | Some h => Gmail.h_value h
  | None => default
  end.

(** The loop over [payload['parts']] of [_get_email_body]. *)
Fixpoint first_plain_part (ps : list Gmail.part) : outcome string :=
  match ps with
  | [] => Ret ""
  | p :: ps' =>
      if String.eqb (Gmail.mimeType p) "text/plain"
         && negb (String.eqb (Gmail.part_data p) "")
      then decode (Gmail.part_data p)
      else first_plain_part ps'
  end.

Definition _get_email_body (payload : Gmail.payload) : outcome string :=
  match Gmail.parts payload with
  | Some ps => first_plain_part ps
  | None =>
      if negb (String.eqb (Gmail.body_data payload) "")
      then decode (Gmail.body_data payload)
      else Ret ""
  end.

Definition _parse_email (msg_id : string) : M state (option email) :=
  try_except
    (message <- execute (GetMessage msg_id) (reading (answer_get msg_id)) ;;
     let headers := Gmail.headers (Gmail.msg_payload message) in
     let subject := header_value "Subject" "No Subject" headers in
     let sender := header_value "From" "Unknown" headers in
     body <- lift (_get_email_body (Gmail.msg_payload message)) ;;
     ret (Some {| em_id := msg_id;
                  em_subject := subject;
                  em_from := sender;
                  em_body := body;
                  em_raw := message |}))
    is_Exception
    (fun e =>
       print ("Error parsing email " ++ msg_id ++ ": " ++ exn_str e) ;;;
       ret None).

(** The loop of [fetch_emails] over the listed messages. *)
Fixpoint collect (ids : list string) (emails : list email)
  : M state (list email) :=
  match ids with
  | [] => ret emails
  | id :: ids' =>
      email_data <- _parse_email id ;;
      match email_data with
      | Some e => collect ids' (emails ++ [e])%list
      | None => collect ids' emails
      end
  end.

Definition query_of (label : string) (unread_only : bool) : string :=
  ("label:" ++ label) ++ (if unread_only then " is:unread" else "").

Definition fetch_emails (label : string) (unread_only : bool) (max_results : Z)
  : M state (list email) :=
  try_except
    (let query := query_of label unread_only in
     messages <- execute (ListMessages query max_results)
                         (reading (answer_list query max_results)) ;;
     collect messages [])
    is_HttpError
    (fun error =>
       print ("An error occurred: " ++ exn_str error) ;;;
       ret []).

Definition mark_as_read (msg_id : string) : M state bool :=
  try_except
    (execute (ModifyMessage msg_id ["UNREAD"])
             (answer_modify msg_id ["UNREAD"]) ;;;
     ret true)
    is_HttpError
    (fun error =>
       print ("Error marking email as read: " ++ exn_str error) ;;;
       ret false).

End Handler.

End EmailHandler.

(* ================================================================== *)
(** ** src/main.py *)
(* ================================================================== *)

Module Main.

(** The calls [process_emails] can make on its three collaborators, each
    with what it gave back.  The list of calls made so far is kept beside
    the log: it is how the theorems speak of an action being taken. *)
Inductive call : Type :=
| CallFetch (label : string) (unread_only : bool) (r : outcome (list email))
| CallPredict (text : string) (r : outcome bool)
| CallConfidence (text : string) (r : outcome pyfloat)
| CallParticipate (e : email) (r : outcome bool)
| CallMarkAsRead (id : string) (r : outcome bool).

(** The methods of [self.email_handler], [self.model_predictor] and
    [self.automation_engine], over whatever state they keep. *)
Record collaborators (St : Type) : Type :=
  { fetch_emails : string -> bool -> Z -> M St (list email);
    mark_as_read : string -> M St bool;
    predict : string -> M St bool;
    get_confidence_score : string -> M St pyfloat;
    participate_in_giveaway : email -> M St bool }.

Section Orchestrator.

Variable St : Type.
Variable self : collaborators St.

Record world : Type :=
  { collab : St;
    log : list Logger.record;
    calls : list call }.

(** The logger of the module is the one that [setup_logger(__name__)]
    made (line 22): its level is [INFO], the default of [setup_logger],
    and nothing in the repository sets another ([--log-level] is parsed
    and not used). *)
Definition level : Logger.level := Logger.INFO.

(** A logging call: the record is kept when the logger is enabled for its
    level, and dropped otherwise. *)
Definition logger (r : Logger.record) : M world unit :=
  fun w =>
    if Logger.is_enabled_for level (Logger.lvl r)
    then (Ret tt,
          {| collab := collab w; log := (log w ++ [r])%list; calls := calls w |})
    else (Ret tt, w).

(** A method call on a collaborator. *)
Definition invoke {A} (event : outcome A -> call) (m : M St A) : M world A :=
  fun w =>
    let (o, st) := m (collab w) in
    (o, {| collab := st; log := log w; calls := (calls w ++ [event o])%list |}).

Definition newline : string := String (ascii_of_nat 10) EmptyString.

Definition _extract_email_text (e : email) : string :=
  em_subject e ++ newline ++ em_body e.

(** The condition of line 63: [prediction and confidence > 0.85]. *)
Definition gate (prediction : bool) (confidence : pyfloat) : bool :=
  prediction && PrimFloat.ltb 0.85%float confidence.

(** The three records of lines 57-67. *)
Definition verdict_record (e : email) (prediction : bool) (confidence : pyfloat)
  : Logger.record :=
  {| Logger.lvl := Logger.INFO;
     Logger.msg := Logger.EmailVerdict (em_subject e) prediction confidence;
     Logger.exc_info := false |}.

Definition attempt_record : Logger.record :=
  Logger.info "Attempting to participate in giveaway".

Definition skip_record : Logger.record :=
  Logger.debug "Skipping email - low confidence".

(** The body of the inner [try] (lines 50-67). *)
Definition process_one (e : email) : M world unit :=
  let email_text := _extract_email_text e in
  prediction <- invoke (CallPredict email_text) (predict self email_text) ;;
  confidence <- invoke (CallConfidence email_text)
                       (get_confidence_score self email_text) ;;
  logger (verdict_record e prediction confidence) ;;;
  if gate prediction confidence then
    logger attempt_record ;;;
    invoke (CallParticipate e) (participate_in_giveaway self e) ;;;
    ret tt
  else
    logger skip_record.

Definition error_record (x : exn) : Logger.record :=
  Logger.error_exc ("Error processing email: " ++ exn_str x).

Definition critical_record (x : exn) : Logger.record :=
  Logger.error_exc ("Critical error during email processing: " ++ exn_str x).

(** One turn of the loop: the inner [try] with its [except Exception]. *)
Definition guarded_one (e : email) : M world unit :=
  try_except (process_one e) is_Exception
    (fun x => logger (error_record x)).

Definition str_of_nat (n : nat) : string :=
  NilEmpty.string_of_uint (Nat.to_uint n).

Definition process_emails : M world unit :=
  try_except
    (logger (Logger.info "Starting email processing cycle") ;;;
     emails <- invoke (CallFetch "Giveaway" true)
                      (fetch_emails self "Giveaway" true 10%Z) ;;
     logger (Logger.info ("Fetched " ++ str_of_nat (List.length emails)
                          ++ " unread emails")) ;;;
     for_each emails guarded_one ;;;
     logger (Logger.info "Email processing cycle completed"))
    is_Exception
    (fun x => logger (critical_record x)).

Definition run_once : M world unit := process_emails.

End Orchestrator.

End Main.

(* ================================================================== *)
(** ** [EmailAutomationSystem]: the three collaborators wired together *)
(* ================================================================== *)

Module System.

Section Wiring.

Variable search : string -> Z -> list Gmail.message -> list string.
Variable faults : EmailHandler.request -> option exn.
Variable decode : string -> outcome string.

Variable ndarray : Type.
Variable str_lower : string -> string.
Variable pad_sequences : list (list Z) -> Z -> outcome ndarray.

Variable browser : Type.
Variable element : Type.
Variable driver_get : string -> M browser unit.
Variable find_elements : string -> M browser (list element).
Variable send_keys : element -> string -> M browser unit.
Variable click : element -> M browser unit.

(** What the collaborators keep: the mail service with the handler's
    output, the predictor's output, the browser with the engine's log. *)
Record state : Type :=
  { gmail : EmailHandler.state;
    console : ModelPredictor.stdout;
    web : AutomationEngine.state browser }.

(** The attributes set by [EmailAutomationSystem.__init__]. *)
Record t : Type :=
  { model_predictor : ModelPredictor.t ndarray;
    automation_engine : AutomationEngine.t }.

Definition on_gmail {A} (m : M EmailHandler.state A) : M state A :=
  fun st =>
    let (o, g) := m (gmail st) in
    (o, {| gmail := g; console := console st; web := web st |}).

Definition on_console {A} (m : M ModelPredictor.stdout A) : M state A :=
  fun st =>
    let (o, c) := m (console st) in
    (o, {| gmail := gmail st; console := c; web := web st |}).

Definition on_web {A} (m : M (AutomationEngine.state browser) A) : M state A :=
  fun st =>
    let (o, b) := m (web st) in
    (o, {| gmail := gmail st; console := console st; web := b |}).

Definition collaborators_of (self : t) : Main.collaborators state :=
  {| Main.fetch_emails := fun label unread_only max_results =>
       on_gmail (EmailHandler.fetch_emails search faults decode
                   label unread_only max_results);
     Main.mark_as_read := fun id =>
       on_gmail (EmailHandler.mark_as_read faults id);
     Main.predict := fun text =>
       on_console (ModelPredictor.predict str_lower pad_sequences
                     (model_predictor self) text);
     Main.get_confidence_score := fun text =>
       on_console (ModelPredictor.get_confidence_score str_lower pad_sequences
                     (model_predictor self) text);
     Main.participate_in_giveaway := fun e =>
       on_web (AutomationEngine.participate_in_giveaway
                 driver_get find_elements send_keys click
                 (automation_engine self) e) |}.

Definition process_emails (self : t) : M (Main.world state) unit :=
  Main.process_emails (collaborators_of self).

(** [run_once] called [n] times in a row. *)
Fixpoint run_cycles (self : t) (n : nat) (w : Main.world state)
  : Main.world state :=
  match n with
  | O => w
  | S k => run_cycles self k (snd (process_emails self w))
  end.

End Wiring.

End System.

(* ================================================================== *)
(** ** Vocabulary of the statements *)
(* ================================================================== *)

Module Spec.

(** A character that one repetition of the pattern's group can take: a
    letter, a digit, a character from [$] to [_], or one of
    [@ . & + ! * ( ) ,]. *)
Definition url_char (c : ascii) : bool :=
  AutomationEngine.is_alpha c || AutomationEngine.is_digit c ||
  AutomationEngine.is_punct c || AutomationEngine.is_sub_delim c.

Fixpoint all_chars (f : ascii -> bool) (s : string) : bool :=
  match s with
  | EmptyString => true
  | String c s' => f c && all_chars f s'
  end.

(** URL-shaped: [http://] or [https://] and then at least one such
    character, and nothing else. *)
Definition url_shaped (u : string) : Prop :=
  exists scheme tail,
    (scheme = "http://" \/ scheme = "https://") /\
    u = scheme ++ tail /\ tail <> "" /\ all_chars url_char tail = true.

(** What the inner [except Exception] makes of an exception [x] that the
    body raised: a record in the log and the loop goes on, or, for an [x]
    that is no [Exception], nothing logged and [x] on its way out. *)
Definition after_raise (x : exn) : list Logger.record * outcome unit :=
  if is_Exception x then ([Main.error_record x], Ret tt) else ([], Raise x).

(** One turn of the loop on message [e], seen from outside: the calls
    made on the collaborators, the records logged, and how the turn
    ended. *)
Inductive message_run (e : email)
  : list Main.call -> list Logger.record -> outcome unit -> Prop :=
| run_predict_raised : forall x,
    message_run e
      [Main.CallPredict (Main._extract_email_text e) (Raise x)]
      (fst (after_raise x)) (snd (after_raise x))
| run_confidence_raised : forall p x,
    message_run e
      [Main.CallPredict (Main._extract_email_text e) (Ret p);
       Main.CallConfidence (Main._extract_email_text e) (Raise x)]
      (fst (after_raise x)) (snd (after_raise x))
| run_skipped : forall p c,
    Main.gate p c = false ->
    message_run e
      [Main.CallPredict (Main._extract_email_text e) (Ret p);
       Main.CallConfidence (Main._extract_email_text e) (Ret c)]
      [Main.verdict_record e p c]
      (Ret tt)
| run_acted : forall p c b,
    Main.gate p c = true ->
    message_run e
      [Main.CallPredict (Main._extract_email_text e) (Ret p);
       Main.CallConfidence (Main._extract_email_text e) (Ret c);
       Main.CallParticipate e (Ret b)]
      [Main.verdict_record e p c; Main.attempt_record]
      (Ret tt)
| run_participate_raised : forall p c x,
    Main.gate p c = true ->
    message_run e
      [Main.CallPredict (Main._extract_email_text e) (Ret p);
       Main.CallConfidence (Main._extract_email_text e) (Ret c);
       Main.CallParticipate e (Raise x)]
      ([Main.verdict_record e p c; Main.attempt_record] ++ fst (after_raise x))%list
      (snd (after_raise x)).

(** The loop over a batch, seen the same way. *)
Inductive loop_run
  : list email -> list Main.call -> list Logger.record -> outcome unit -> Prop :=
| loop_done : loop_run [] [] [] (Ret tt)
| loop_next : forall e es seg lg cs ls r,
    message_run e seg lg (Ret tt) ->
    loop_run es cs ls r ->
    loop_run (e :: es) (seg ++ cs)%list (lg ++ ls)%list r
| loop_abort : forall e es seg lg x,
    message_run e seg lg (Raise x) ->
    loop_run (e :: es) seg lg (Raise x).

(** The calls of one turn on message [e]: [participate_in_giveaway] is
    the third call exactly when the first two gave a label and a score
    that pass the gate. *)
Inductive message_calls (e : email) : list Main.call -> Prop :=
| calls_predict_raised : forall x,
    message_calls e [Main.CallPredict (Main._extract_email_text e) (Raise x)]
| calls_confidence_raised : forall p x,
    message_calls e
      [Main.CallPredict (Main._extract_email_text e) (Ret p);
       Main.CallConfidence (Main._extract_email_text e) (Raise x)]
| calls_gated_out : forall p c,
    Main.gate p c = false ->
    message_calls e
      [Main.CallPredict (Main._extract_email_text e) (Ret p);
       Main.CallConfidence (Main._extract_email_text e) (Ret c)]
| calls_gated_in : forall p c r,
    Main.gate p c = true ->
    message_calls e
      [Main.CallPredict (Main._extract_email_text e) (Ret p);
       Main.CallConfidence (Main._extract_email_text e) (Ret c);
       Main.CallParticipate e r].

(** The counts of a cycle outcome, read off the log and the calls.
    Failed messages are the [ERROR] records of the loop.  A skipped
    message leaves its verdict record and no record after it for the
    attempt (the [DEBUG] call of line 67 is below the level of the
    logger): skipped messages are the verdict records that no attempt
    record follows.  And a message was acted upon when
    [participate_in_giveaway] came back. *)
Definition is_verdict (r : Logger.record) : bool :=
  match Logger.msg r with
  | Logger.EmailVerdict _ _ _ => true
  | Logger.Text _ => false
  end.

Definition is_attempt (r : Logger.record) : bool :=
  match Logger.msg r with
  | Logger.Text s => String.eqb s "Attempting to participate in giveaway"
  | Logger.EmailVerdict _ _ _ => false
  end.

Definition attempt_follows (l : list Logger.record) : bool :=
  match l with
  | r :: _ => is_attempt r
  | [] => false
  end.

Definition is_acted (c : Main.call) : bool :=
  match c with
  | Main.CallParticipate _ (Ret _) => true
  | _ => false
  end.

Definition is_participate (c : Main.call) : bool :=
  match c with
  | Main.CallParticipate _ _ => true
  | _ => false
  end.

Definition is_mark_as_read (c : Main.call) : bool :=
  match c with
  | Main.CallMarkAsRead _ _ => true
  | _ => false
  end.

Definition n_failed (l : list Logger.record) : nat :=
  List.length (filter Logger.is_error l).

Fixpoint n_skipped (l : list Logger.record) : nat :=
  match l with
  | [] => 0
  | r :: l' =>
      (if is_verdict r && negb (attempt_follows l') then 1 else 0)
      + n_skipped l'
  end.

Definition n_acted (cs : list Main.call) : nat :=
  List.length (filter is_acted cs).

(** The messages a world has an outcome for. *)
Definition outcomes {St : Type} (w : Main.world St) : nat :=
  n_failed (Main.log w) + n_skipped (Main.log w) + n_acted (Main.calls w).

(** [xs] is [ys] with some entries left out. *)
Inductive subseq {A : Type} : list A -> list A -> Prop :=
| subseq_nil : subseq [] []
| subseq_skip : forall xs y ys, subseq xs ys -> subseq xs (y :: ys)
| subseq_keep : forall x xs ys, subseq xs ys -> subseq (x :: xs) (x :: ys).

(** A request that only reads the mailbox. *)
Definition is_read (r : EmailHandler.request) : bool :=
  match r with
  | EmailHandler.ModifyMessage _ _ => false
  | _ => true
  end.

(** The dictionary [_parse_email] builds from a message and its decoded
    body. *)
Definition email_of (id : string) (m : Gmail.message) (body : string) : email :=
  {| em_id := id;
     em_subject :=
       EmailHandler.header_value "Subject" "No Subject"
         (Gmail.headers (Gmail.msg_payload m));
     em_from :=
       EmailHandler.header_value "From" "Unknown"
         (Gmail.headers (Gmail.msg_payload m));
     em_body := body;
     em_raw := m |}.

Definition unread (m : Gmail.message) : bool :=
  existsb (String.eqb "UNREAD") (Gmail.labelIds m).

(** The mail service after some requests that only read: the mailbox is
    the same, and the requests sent meanwhile are listings and
    retrievals. *)
Definition only_read (g g' : EmailHandler.state) : Prop :=
  EmailHandler.mailbox g' = EmailHandler.mailbox g /\
  exists rs,
    EmailHandler.requests g' = (EmailHandler.requests g ++ rs)%list /\
    forallb is_read rs = true.

(** Where the repetition of the group stops: at the end of the text or
    in front of a character the group cannot take. *)
Definition stops (r : string) : Prop :=
  match r with
  | EmptyString => True
  | String c _ => url_char c = false
  end.

(** [0.0 <= c <= 1.0] *)
Definition in_unit_interval (c : pyfloat) : bool :=
  PrimFloat.leb 0%float c && PrimFloat.leb c 1%float.

End Spec.

(* ================================================================== *)
(** ** Concrete collaborators, for the examples *)
(* ================================================================== *)

Module Fixture.

(** [str.lower] on ASCII text. *)
Definition lower_char (c : ascii) : ascii :=
  if AutomationEngine.in_range "A" "Z" c
  then ascii_of_nat (nat_of_ascii c + 32)
  else c.

Fixpoint str_lower (s : string) : string :=
  match s with
  | EmptyString => EmptyString
  | String c s' => String (lower_char c) (str_lower s')
  end.

(** [pad_sequences(sequences, maxlen, padding='post')]: a longer sequence
    loses its front, a shorter one gets zeros at its end. *)
Definition pad_sequences (sequences : list (list Z)) (maxlen : Z)
  : outcome (list (list Z)) :=
  let n := Z.to_nat maxlen in
  Ret (map (fun s =>
              let kept := skipn (List.length s - n) s in
              (kept ++ repeat 0%Z (n - List.length kept))%list)
           sequences).

(** A tokenizer that numbers a text by its length. *)
Definition tokenizer : ModelPredictor.Tokenizer :=
  {| ModelPredictor.texts_to_sequences := fun texts =>
       Ret (map (fun t => [Z.of_nat (String.length t)]) texts) |}.

(** A model whose single output is always [score]. *)
Definition constant_model (score : pyfloat)
  : ModelPredictor.Model (list (list Z)) :=
  {| ModelPredictor.model_predict := fun _ => Ret [[score]] |}.

Definition predictor (score : pyfloat) : ModelPredictor.t (list (list Z)) :=
  {| ModelPredictor.model := Some (constant_model score);
     ModelPredictor.tokenizer := Some tokenizer;
     ModelPredictor.max_length := Some 100%Z |}.

(** A model that gives the same rows of scores for every input. *)
Definition table_model (rows : list (list pyfloat))
  : ModelPredictor.Model (list (list Z)) :=
  {| ModelPredictor.model_predict := fun _ => Ret rows |}.

Definition predictor_of (rows : list (list pyfloat))
  : ModelPredictor.t (list (list Z)) :=
  {| ModelPredictor.model := Some (table_model rows);
     ModelPredictor.tokenizer := Some tokenizer;
     ModelPredictor.max_length := Some 100%Z |}.

(** Two rows of two scores; only the first score of the first row is at
    the threshold. *)
Definition two_by_two : list (list pyfloat) :=
  [[0.5%float; 0.9%float]; [0.7%float; 0.8%float]].

(** A browser that records the pages it was sent to and the keys it was
    given; every page has one e-mail field, one text field and one submit
    button, numbered 0, 1 and 2. *)
Definition browser : Type := list string.

Definition driver_get (url : string) : M browser unit :=
  fun b => (Ret tt, (b ++ [("GET " ++ url)%string])%list).

Definition find_elements (css : string) : M browser (list nat) :=
  fun b =>
    (Ret (if String.eqb css AutomationEngine.css_email then [0]
          else if String.eqb css AutomationEngine.css_text then [1]
          else [2]),
     b).

Definition send_keys (el : nat) (keys : string) : M browser unit :=
  fun b => (Ret tt, (b ++ [("KEYS " ++ keys)%string])%list).

Definition click (el : nat) : M browser unit :=
  fun b => (Ret tt, (b ++ ["CLICK"])%list).

Definition no_session : AutomationEngine.state browser :=
  {| AutomationEngine.session := []; AutomationEngine.elog := [] |}.

(** Messages as [_parse_email] builds them. *)
Definition message (id subject sender body : string) : Gmail.message :=
  {| Gmail.msg_id := id;
     Gmail.labelIds := ["Giveaway"; "UNREAD"];
     Gmail.msg_payload :=
       {| Gmail.headers :=
            [ {| Gmail.h_name := "From"; Gmail.h_value := sender |};
              {| Gmail.h_name := "Subject"; Gmail.h_value := subject |} ];
          Gmail.parts := None;
          Gmail.body_data := body |} |}.

Definition mail (id subject sender body : string) : email :=
  {| em_id := id;
     em_subject := subject;
     em_from := sender;
     em_body := body;
     em_raw := message id subject sender body |}.

Definition car : email :=
  mail "18c2f0a1" "Win a car" "promo@example.com"
       "Visit http://example.com/win now and also https://other.com/x".

Definition corrupt : email :=
  mail "18c2f0a2" "corrupt" "promo@example.com" "no text".

Definition phone : email :=
  mail "18c2f0a3" "Win a phone" "shop@example.org"
       "Enter at https://example.org/phone today".

(** Stand-ins for the three collaborators, as a test would write them.
    The state counts the calls made.  The classifier raises on the word
    [corrupt], calls a text a giveaway when it says [Win], and is exactly
    0.85 sure about cars and 0.97 sure about anything else. *)
Definition tick {A} (o : outcome A) : M nat A := fun n => (o, S n).

Definition fake_predict (text : string) : M nat bool :=
  if Logger.contains "corrupt" text
  then tick (Raise (mk_exn ValueError "could not tokenize"))
  else tick (Ret (Logger.contains "Win" text)).

Definition fake_confidence (text : string) : M nat pyfloat :=
  tick (Ret (if Logger.contains "car" text then 0.85%float else 0.97%float)).

Definition fake (batch : outcome (list email)) : Main.collaborators nat :=
  {| Main.fetch_emails := fun _ _ _ => tick batch;
     Main.mark_as_read := fun _ => tick (Ret true);
     Main.predict := fake_predict;
     Main.get_confidence_score := fake_confidence;
     Main.participate_in_giveaway := fun _ => tick (Ret true) |}.


Definition start : Main.world nat :=
  {| Main.collab := 0; Main.log := []; Main.calls := [] |}.

(** A mail service: the listing gives, in mailbox order and up to
    [maxResults], the messages that carry a label named in the query and,
    when the query says [is:unread], the label [UNREAD]. *)
Definition search (q : string) (n : Z) (mb : list Gmail.message) : list string :=
  firstn (Z.to_nat n)
    (map Gmail.msg_id
       (filter (fun m =>
                  existsb (fun l => Logger.contains ("label:" ++ l) q)
                          (Gmail.labelIds m)
                  && (negb (Logger.contains "is:unread" q) || Spec.unread m))
               mb)).

Definition no_faults (r : EmailHandler.request) : option exn := None.

(** The network is down: the listing cannot be asked for. *)
Definition network_down (r : EmailHandler.request) : option exn :=
  match r with
  | EmailHandler.ListMessages _ _ =>
      Some (mk_exn ConnectionError "network is unreachable")
  | _ => None
  end.

(** The service refuses the listing. *)
Definition quota_exceeded (r : EmailHandler.request) : option exn :=
  match r with
  | EmailHandler.ListMessages _ _ => Some (mk_exn HttpError "429")
  | _ => None
  end.

(** The service cannot give the second message. *)
Definition second_unavailable (r : EmailHandler.request) : option exn :=
  match r with
  | EmailHandler.GetMessage id =>
      if String.eqb id "18c2f0a2" then Some (mk_exn HttpError "500") else None
  | _ => None
  end.

(** Bodies are kept decoded in the fixture's mailbox. *)
Definition decode (data : string) : outcome string := Ret data.

Definition inbox : EmailHandler.state :=
  {| EmailHandler.mailbox :=
       [em_raw car; em_raw corrupt; em_raw phone];
     EmailHandler.requests := [];
     EmailHandler.stdout := [] |}.

(** The system on the fixture's mailbox, with a model that scores every
    text 0.97 and a browser that started. *)
Definition system : System.t (list (list Z)) :=
  {| System.model_predictor := predictor 0.97%float;
     System.automation_engine :=
       {| AutomationEngine.driver := true;
          AutomationEngine.headless := false |} |}.

Definition world0 : Main.world (System.state browser) :=
  {| Main.collab :=
       {| System.gmail := inbox;
          System.console := [];
          System.web := no_session |};
     Main.log := [];
     Main.calls := [] |}.


Definition cycle (w : Main.world (System.state browser))
  : Main.world (System.state browser) :=
  snd (System.process_emails search no_faults decode str_lower pad_sequences
         driver_get find_elements send_keys click system w).

End Fixture.

(* ================================================================== *)
(** ** Vocabulary of the further properties *)
(* ================================================================== *)

Module View.

(** What [_parse_email] makes of a message the service hands over: the
    dictionary when the body decodes, nothing otherwise. *)
Definition parsed (decode : string -> outcome string)
    (mb : list Gmail.message) (id : string) : list email :=
  match EmailHandler.find_message id mb with
  | Some m =>
      match EmailHandler._get_email_body decode (Gmail.msg_payload m) with
      | Ret body => [Spec.email_of id m body]
      | Raise _ => []
      end
  | None => []
  end.

(** The same when the retrieval itself can fail: nothing for a message
    whose request the service or the transport answers with an
    exception. *)
Definition retrieved (faults : EmailHandler.request -> option exn)
    (decode : string -> outcome string)
    (mb : list Gmail.message) (id : string) : list email :=
  match faults (EmailHandler.GetMessage id) with
  | Some _ => []
  | None => parsed decode mb id
  end.

(** A part that [_get_email_body] takes the body from: plain text with
    data in it. *)
Definition plain_with_data (p : Gmail.part) : bool :=
  String.eqb (Gmail.mimeType p) "text/plain"
  && negb (String.eqb (Gmail.part_data p) "").

(** The message [id] with its [UNREAD] label taken off, any other message
    as it is. *)
Definition marked (id : string) (m : Gmail.message) : Gmail.message :=
  if String.eqb (Gmail.msg_id m) id
  then EmailHandler.remove_labels ["UNREAD"] m
  else m.

Definition is_fetch (c : Main.call) : bool :=
  match c with
  | Main.CallFetch _ _ _ => true
  | _ => false
  end.

End View.

(* ================================================================== *)
(** ** src/main.py: [main] *)
(* ================================================================== *)

Module Startup.

Inductive mode : Type := auto | once.

(** The parsed command line (lines 120-147). *)
Record args : Type :=
  { arg_mode : mode;
    arg_interval : Z;
    arg_config : option string;
    arg_log_level : Logger.level }.

(** No option given: [once], 3600 seconds, no configuration file, [INFO]. *)
Definition defaults : args :=
  {| arg_mode := once;
     arg_interval := 3600%Z;
     arg_config := None;
     arg_log_level := Logger.INFO |}.

(** [str] of an [int]. *)
Definition str_of_Z (z : Z) : string := NilEmpty.string_of_int (Z.to_int z).

Section Entry.

Variable St : Type.

(** [EmailAutomationSystem(config_path=...)]: the constructor, which
    builds the three collaborators and may raise. *)
Variable construct : option string -> M (Main.world St) (Main.collaborators St).

(** The three calls on [self.scheduler], a [BackgroundScheduler]:
    [add_job(self.process_emails, 'interval', seconds, id, name)],
    [start()] and [shutdown()]. *)
Variable add_job :
  Main.collaborators St -> Z -> string -> string -> M (Main.world St) unit.
Variable scheduler_start : M (Main.world St) unit.
Variable scheduler_shutdown : M (Main.world St) unit.

(** [while True: time.sleep(1)] can only end by an exception: the
    exception that ends the wait. *)
Variable wait : Main.world St -> exn * Main.world St.

Definition log_info (s : string) : M (Main.world St) unit :=
  Main.logger (St := St) (Logger.info s).

Definition start_scheduler (self : Main.collaborators St) (interval : Z)
  : M (Main.world St) unit :=
  add_job self interval "email_processor" "Email Processing Job" ;;;
  scheduler_start ;;;
  log_info ("Scheduler started with " ++ str_of_Z interval ++ "s interval").

Definition stop_scheduler : M (Main.world St) unit :=
  scheduler_shutdown ;;;
  log_info "Scheduler stopped".

Definition is_KeyboardInterrupt (e : exn) : bool :=
  match exn_cls e with
  | KeyboardInterrupt => true
  | _ => false
  end.

(** Lines 158-165. *)
Definition keep_running : M (Main.world St) unit :=
  try_except
    (fun w => let (x, w') := wait w in (Raise x, w'))
    is_KeyboardInterrupt
    (fun _ =>
       log_info "Received interrupt signal" ;;;
       stop_scheduler ;;;
       log_info "System shutting down gracefully").

(** [main], from the parsed arguments on; the value is the exit code. *)
Definition main (a : args) : M (Main.world St) Z :=
  system <- construct (arg_config a) ;;
  fatal <- try_except
             (match arg_mode a with
              | auto =>
                  log_info ("Starting in AUTO mode with "
                            ++ str_of_Z (arg_interval a) ++ "s interval") ;;;
                  start_scheduler system (arg_interval a) ;;;
                  keep_running
              | once =>
                  log_info "Running in ONCE mode" ;;;
                  Main.run_once system ;;;
                  log_info "Single run completed"
              end ;;;
              ret false)
             is_Exception
             (fun e =>
                Main.logger (Logger.error_exc ("Fatal error: " ++ exn_str e)) ;;;
                ret true) ;;
  ret (if fatal then 1%Z else 0%Z).

End Entry.

End Startup.

(* ================================================================== *)
(** ** src/email_handler.py: [__init__] and [_authenticate] *)
(* ================================================================== *)

Module Auth.

(** What the module reads of a credentials object. *)
Record credentials : Type :=
  { valid : bool;
    expired : bool;
    refresh_token : option string;
    secret : string }.

(** [creds.refresh_token] as a condition: neither [None] nor empty. *)
Definition has_refresh_token (c : credentials) : bool :=
  match refresh_token c with
  | Some t => negb (String.eqb t "")
  | None => false
  end.

Section Authenticate.

(** [pickle.load] on the bytes of the token file;
    [open('token.pickle', 'wb')], which may raise; [pickle.dump] by the
    bytes it writes and the exception it raises, if it raises, after
    writing them; [creds.refresh(Request())] by the credentials it
    leaves; [InstalledAppFlow.from_client_secrets_file(path, SCOPES)
    .run_local_server(port=0)]; and [build('gmail', 'v1', credentials)]. *)
Variable service : Type.
Variable pickle_load : string -> outcome credentials.
Variable open_wb : outcome unit.
Variable pickle_dump : credentials -> string * option exn.
Variable refresh : credentials -> outcome credentials.
Variable run_flow : string -> outcome credentials.
Variable build : credentials -> outcome service.

(** The bytes of [token.pickle]; [None] when the file is not there. *)
Definition disk : Type := option string.

(** Lines 33-35. *)
Definition load_token : M disk (option credentials) :=
  fun d =>
    match d with
    | Some bytes =>
        match pickle_load bytes with
        | Ret c => (Ret (Some c), d)
        | Raise x => (Raise x, d)
        end
    | None => (Ret None, d)
    end.

(** Lines 45-46.  When the file cannot be opened it stays as it was.
    Once opened for writing it holds what [pickle.dump] wrote, also when
    [pickle.dump] raised before it was done: what the file held before is
    gone. *)
Definition save_token (c : credentials) : M disk unit :=
  fun d =>
    match open_wb with
    | Raise x => (Raise x, d)
    | Ret _ =>
        match pickle_dump c with
        | (bytes, None) => (Ret tt, Some bytes)
        | (written, Some x) => (Raise x, Some written)
        end
    end.

(** [not creds or not creds.valid] *)
Definition must_renew (creds : option credentials) : bool :=
  match creds with
  | Some c => negb (valid c)
  | None => true
  end.

(** [creds and creds.expired and creds.refresh_token] *)
Definition can_refresh (creds : option credentials) : bool :=
  match creds with
  | Some c => expired c && has_refresh_token c
  | None => false
  end.

Definition _authenticate (credentials_path : string) : M disk service :=
  creds <- load_token ;;
  creds <- (if must_renew creds then
              creds' <- (if can_refresh creds then
                           match creds with
                           | Some c => lift (refresh c)
                           | None => raise (mk_exn AttributeError "refresh")
                           end
                         else lift (run_flow credentials_path)) ;;
              save_token creds' ;;;
              ret creds'
            else
              match creds with
              | Some c => ret c
              | None => raise (mk_exn AttributeError "valid")
              end) ;;
  lift (build creds).

(** [credentials_path or 'config/credentials.json'] *)
Definition path_or_default (credentials_path : option string) : string :=
  match credentials_path with
  | Some p => if String.eqb p "" then "config/credentials.json" else p
  | None => "config/credentials.json"
  end.

(** [EmailHandler.__init__]: the path kept and the service built. *)
Definition init (credentials_path : option string) : M disk (string * service) :=
  let path := path_or_default credentials_path in
  svc <- _authenticate path ;;
  ret (path, svc).

End Authenticate.

End Auth.

(* ================================================================== *)
(** ** src/logger.py *)
(* ================================================================== *)

Module LoggerSetup.

(** The two kinds of handler the module makes, each with its level and
    its format. *)
Inductive handler : Type :=
| StreamHandler (lvl : Logger.level) (fmt : string)
| FileHandler (filename : string) (lvl : Logger.level) (fmt : string).

(** A logger of the [logging] module: its level, [None] before any
    [setLevel], and its handlers. *)
Record logger : Type :=
  { lg_level : option Logger.level;
    lg_handlers : list handler }.

(** The loggers that [logging.getLogger] has made so far, by name; the
    directories that exist; the files opened by a [FileHandler]; and
    today's date as [strftime] with [%Y%m%d] gives it. *)
Record state : Type :=
  { registry : list (string * logger);
    dirs : list string;
    opened : list string;
    today : string }.

Definition fresh : logger := {| lg_level := None; lg_handlers := [] |}.

(** [logging.getLogger(name)] as a lookup: the logger of that name, a new
    one when the name is new. *)
Definition get_logger (name : string) (reg : list (string * logger)) : logger :=
  match find (fun entry => String.eqb (fst entry) name) reg with
  | Some entry => snd entry
  | None => fresh
  end.

(** The registry with the logger of [name] replaced. *)
Fixpoint put_logger (name : string) (lg : logger) (reg : list (string * logger))
  : list (string * logger) :=
  match reg with
  | [] => [(name, lg)]
  | entry :: reg' =>
      if String.eqb (fst entry) name then (name, lg) :: reg'
      else entry :: put_logger name lg reg'
  end.

Definition console_format : string :=
  "%(asctime)s - %(name)s - %(levelname)s - %(message)s".

Definition file_format : string :=
  "%(asctime)s - %(name)s - %(levelname)s - [%(filename)s:%(lineno)d] - %(message)s".

Definition log_filename (date : string) : string :=
  "logs/email_automation_" ++ date ++ ".log".

Definition setup_logger (name : string) (log_level : Logger.level)
  : M state logger :=
  fun st =>
    let lg := get_logger name (registry st) in
    (* logger.setLevel(log_level) *)
    let lg := {| lg_level := Some log_level; lg_handlers := lg_handlers lg |} in
    (* if not os.path.exists('logs'): os.makedirs('logs') *)
    let dirs' :=
      if existsb (String.eqb "logs") (dirs st) then dirs st
      else (dirs st ++ ["logs"])%list in
    let console_handler := StreamHandler log_level console_format in
    let filename := log_filename (today st) in
    (* logging.FileHandler(log_filename) opens the file *)
    let opened' := (opened st ++ [filename])%list in
    let file_handler := FileHandler filename log_level file_format in
    (* if not logger.handlers: *)
    let lg :=
      match lg_handlers lg with
      | [] => {| lg_level := lg_level lg;
                 lg_handlers := [console_handler; file_handler] |}
      | _ => lg
      end in
    (Ret lg,
     {| registry := put_logger name lg (registry st);
        dirs := dirs';
        opened := opened';
        today := today st |}).

End LoggerSetup.

(* ================================================================== *)
(** ** Scenarios for the entry point, the token file and the logger *)
(* ================================================================== *)

Module Scenario.

(** A start on the fake collaborators, with a mail service that cannot be
    reached; the scheduler does nothing and the wait is interrupted from
    the keyboard at once. *)
Definition construct (config : option string)
  : M (Main.world nat) (Main.collaborators nat) :=
  Main.logger (Logger.info "Email Automation System initialized") ;;;
  ret (Fixture.fake (Raise (mk_exn ConnectionError "network is unreachable"))).

Definition add_job (system : Main.collaborators nat) (seconds : Z)
    (id name : string) : M (Main.world nat) unit :=
  ret tt.

Definition scheduler_start : M (Main.world nat) unit := ret tt.

Definition scheduler_shutdown : M (Main.world nat) unit := ret tt.

Definition wait (w : Main.world nat) : exn * Main.world nat :=
  (mk_exn KeyboardInterrupt "", w).

Definition main : Startup.args -> M (Main.world nat) Z :=
  Startup.main construct add_job scheduler_start scheduler_shutdown wait.

(** A token file whose bytes are the secret of the credentials, and an
    identity provider whose credentials are valid. *)
Definition granted (s : string) : Auth.credentials :=
  {| Auth.valid := true;
     Auth.expired := false;
     Auth.refresh_token := Some "refresh";
     Auth.secret := s |}.

Definition pickle_load (bytes : string) : outcome Auth.credentials :=
  Ret (granted bytes).

Definition open_wb : outcome unit := Ret tt.

Definition pickle_dump (c : Auth.credentials) : string * option exn :=
  (Auth.secret c, None).

Definition refresh (c : Auth.credentials) : outcome Auth.credentials :=
  Ret (granted (Auth.secret c ++ "+")).

Definition run_flow (path : string) : outcome Auth.credentials :=
  Ret (granted ("granted by " ++ path)).

Definition build (c : Auth.credentials) : outcome string :=
  Ret ("gmail v1 with " ++ Auth.secret c).

Definition _authenticate : string -> M Auth.disk string :=
  Auth._authenticate pickle_load open_wb pickle_dump refresh run_flow build.

(** Two loggers set up on the first of November; the directory [logs] is
    not there yet. *)
Definition first_of_november : LoggerSetup.state :=
  {| LoggerSetup.registry := [];
     LoggerSetup.dirs := [];
     LoggerSetup.opened := [];
     LoggerSetup.today := "20261101" |}.

End Scenario.

(* ================================================================== *)
(** ** Proof steps *)
(* ================================================================== *)

(** Runs [_parse_email id st] through its cases: a faulty request, caught
    or not; a message that is not there; a body that decodes or not. *)
Ltac run_parse faults decode id st :=
  unfold EmailHandler._parse_email, try_except, bind, EmailHandler.execute,
    EmailHandler.reading, EmailHandler.answer_get, lift, ret,
    EmailHandler.print;
  let x := fresh "x" in
  let m := fresh "m" in
  let body := fresh "body" in
  destruct (faults (EmailHandler.GetMessage id)) as [x|] eqn:?Hfault;
  [ destruct (is_Exception x) eqn:?Hx
  | destruct (EmailHandler.find_message id (EmailHandler.mailbox st))
      as [m|] eqn:?Hfind;
    [ destruct (EmailHandler._get_email_body decode (Gmail.msg_payload m))
        as [body|x] eqn:?Hbody;
      [ | destruct (is_Exception x) eqn:?Hx ]
    | ] ];
  cbn.

(* ================================================================== *)
(** * Properties *)
(* ================================================================== *)

(** ** The monad *)


(** ** The classifier *)

Section PredictorFacts.

Variable ndarray : Type.
Variable str_lower : string -> string.
Variable pad_sequences : list (list Z) -> Z -> outcome ndarray.

Local Abbreviation predictor := (ModelPredictor.t ndarray).
Local Abbreviation predict := (ModelPredictor.predict str_lower pad_sequences).
Local Abbreviation get_confidence_score :=
  (ModelPredictor.get_confidence_score str_lower pad_sequences).
Local Abbreviation predict_batch :=
  (ModelPredictor.predict_batch str_lower pad_sequences).
Local Abbreviation preprocess_text :=
  (ModelPredictor.preprocess_text str_lower pad_sequences).

(** Preprocessing prints nothing: it leaves the state as it found it, and
    what it gives does not depend on the state. *)
Lemma preprocess_text_pure : forall (p : predictor) text out out',
  snd (preprocess_text p text out) = out /\
  fst (preprocess_text p text out) = fst (preprocess_text p text out').
Proof.
  intros p text out out'. unfold ModelPredictor.preprocess_text.
  destruct (ModelPredictor.tokenizer p) as [tk|]; [|split; reflexivity].
  unfold bind, lift, ret.
  destruct (ModelPredictor.texts_to_sequences tk [str_lower text]);
    [|split; reflexivity].
  destruct (ModelPredictor.max_length p); [|split; reflexivity].
  destruct (pad_sequences a z); split; reflexivity.
Qed.

(** What [predict] gives does not depend on what was printed before. *)
Lemma predict_result_pure : forall (p : predictor) text out out',
  fst (predict p text out) = fst (predict p text out').
Proof.
  intros p text out out'. unfold ModelPredictor.predict.
  destruct (negb (ModelPredictor.loaded p)); [reflexivity|].
  unfold try_except, bind.
  destruct (preprocess_text_pure p text out out') as [_ E].
  destruct (preprocess_text p text out) as [[[x|]|e] s1];
    destruct (preprocess_text p text out') as [[[x'|]|e'] s1'];
    simpl in E; try discriminate E; try reflexivity.
  - injection E as ->.
    unfold ModelPredictor.run_model, lift, raise, ret.
    destruct (ModelPredictor.model p) as [m|]; simpl; [|reflexivity].
    destruct (ModelPredictor.model_predict m x') as [rows|e]; simpl.
    + destruct (ModelPredictor.first_score rows) as [c|e]; simpl;
        [reflexivity|].
      destruct (is_Exception e); reflexivity.
    + destruct (is_Exception e); reflexivity.
  - injection E as ->. destruct (is_Exception e'); reflexivity.
Qed.

(** With the model or the tokenizer missing, [predict] answers [False]
    after printing one line and [get_confidence_score] answers [0.0]. *)
Lemma predict_unloaded : forall (p : predictor) text out,
  ModelPredictor.loaded p = false ->
  predict p text out = (Ret false, (out ++ ["Model not loaded"])%list).
Proof.
  intros p text out H. unfold ModelPredictor.predict. rewrite H. reflexivity.
Qed.

Lemma confidence_unloaded : forall (p : predictor) text out,
  ModelPredictor.loaded p = false ->
  get_confidence_score p text out = (Ret 0%float, out).
Proof.
  intros p text out H. unfold ModelPredictor.get_confidence_score.
  rewrite H. reflexivity.
Qed.

(** [__init__] leaves both attributes [None] as soon as one of the two
    loads raises. *)
Lemma init_failed_unloaded :
  forall (load_model : outcome (ModelPredictor.Model ndarray)) load_tokenizer
         out (p : predictor) out',
  ModelPredictor.init load_model load_tokenizer out = (Ret p, out') ->
  returned load_model = None \/ returned load_tokenizer = None ->
  ModelPredictor.loaded p = false.
Proof.
  intros lm lt out p out' Hinit Hfail.
  unfold ModelPredictor.init, try_except, bind, lift, ret in Hinit.
  destruct lm as [m|e].
  - destruct lt as [tk|e].
    + destruct Hfail as [H|H]; discriminate H.
    + destruct (is_Exception e); [|discriminate Hinit].
      injection Hinit as <- _. reflexivity.
  - destruct (is_Exception e); [|discriminate Hinit].
    injection Hinit as <- _. reflexivity.
Qed.

(** C10.  With model and tokenizer loaded and an inference that goes
    through, [predict] answers whether the raw score, the first entry of
    the first row of what [model.predict] gave, is strictly above 0.5, and
    prints nothing; a raw score of exactly 0.5 gives [False]. *)
Theorem predict_threshold :
  forall (p : predictor) m tk n text seqs padded score row rows out,
  ModelPredictor.model p = Some m ->
  ModelPredictor.tokenizer p = Some tk ->
  ModelPredictor.max_length p = Some n ->
  ModelPredictor.texts_to_sequences tk [str_lower text] = Ret seqs ->
  pad_sequences seqs n = Ret padded ->
  ModelPredictor.model_predict m padded = Ret ((score :: row) :: rows) ->
  (exists b, predict p text out = (Ret b, out) /\
             (b = true <-> PrimFloat.ltb 0.5%float score = true)) /\
  (score = 0.5%float -> predict p text out = (Ret false, out)).
Proof.
  intros p m tk n text seqs padded score row rows out Hm Htk Hn Hseq Hpad Hrun.
  assert (E : predict p text out = (Ret (PrimFloat.ltb 0.5%float score), out)).
  { unfold ModelPredictor.predict, ModelPredictor.loaded.
    rewrite Hm, Htk. simpl.
    unfold try_except, bind, ModelPredictor.preprocess_text.
    rewrite Htk, Hn. unfold bind, lift, ret. rewrite Hseq, Hpad.
    unfold ModelPredictor.run_model. rewrite Hm. unfold lift.
    rewrite Hrun. reflexivity. }
  split.
  - exists (PrimFloat.ltb 0.5%float score). split; [exact E|tauto].
  - intros ->. exact E.
Qed.

(** What [get_confidence_score] can give: [0.0], or the first entry of
    the first row of what the model put out, passed on as it is; an
    exception leaves it only if it is no [Exception]. *)
Lemma confidence_cases : forall (p : predictor) text out,
  match fst (get_confidence_score p text out) with
  | Ret c =>
      c = 0%float \/
      exists m padded row rows,
        ModelPredictor.model p = Some m /\
        ModelPredictor.model_predict m padded = Ret ((c :: row) :: rows)
  | Raise x => is_Exception x = false
  end.
Proof.
  intros p text out. unfold ModelPredictor.get_confidence_score.
  destruct (negb (ModelPredictor.loaded p)); [left; reflexivity|].
  unfold try_except, bind.
  destruct (preprocess_text p text out) as [[[x|]|e] s1].
  - unfold ModelPredictor.run_model, lift, raise, ret.
    destruct (ModelPredictor.model p) as [m|] eqn:Hm; simpl.
    + destruct (ModelPredictor.model_predict m x) as [rows|e] eqn:Hrun; simpl.
      * destruct rows as [|[|c row] rows]; simpl.
        -- left. reflexivity.
        -- left. reflexivity.
        -- right. exists m, x, row, rows. auto.
      * destruct (is_Exception e) eqn:He; simpl; [left; reflexivity|exact He].
    + left. reflexivity.
  - left. reflexivity.
  - destruct (is_Exception e) eqn:He; simpl; [left; reflexivity|exact He].
Qed.

(** There is no clamping: what [get_confidence_score] gives lies in
    [0, 1] only as far as the first scores of the model do. *)
Lemma confidence_bounded_by_model :
  forall (p : predictor) text out,
  (forall m padded c row rows,
      ModelPredictor.model p = Some m ->
      ModelPredictor.model_predict m padded = Ret ((c :: row) :: rows) ->
      Spec.in_unit_interval c = true) ->
  match fst (get_confidence_score p text out) with
  | Ret c => Spec.in_unit_interval c = true
  | Raise x => is_Exception x = false
  end.
Proof.
  intros p text out Hmodel.
  pose proof (confidence_cases p text out) as H.
  destruct (fst (get_confidence_score p text out)) as [c|x]; [|exact H].
  destruct H as [-> | (m & padded & row & rows & Hm & Hrun)].
  - reflexivity.
  - exact (Hmodel m padded c row rows Hm Hrun).
Qed.

(** [predict] raises nothing that is an [Exception]. *)
Lemma predict_raises_no_Exception : forall (p : predictor) text out x,
  fst (predict p text out) = Raise x -> is_Exception x = false.
Proof.
  intros p text out x. unfold ModelPredictor.predict.
  destruct (negb (ModelPredictor.loaded p)); [discriminate|].
  unfold try_except, bind.
  destruct (preprocess_text p text out) as [[[y|]|e] s1].
  - unfold ModelPredictor.run_model, lift, raise, ret.
    destruct (ModelPredictor.model p) as [m|]; simpl; [|discriminate].
    destruct (ModelPredictor.model_predict m y) as [rows|e]; simpl.
    + destruct (ModelPredictor.first_score rows) as [c|e]; simpl;
        [discriminate|].
      destruct (is_Exception e) eqn:He; simpl; [discriminate|].
      intro H. injection H as <-. exact He.
    + destruct (is_Exception e) eqn:He; simpl; [discriminate|].
      intro H. injection H as <-. exact He.
  - discriminate.
  - destruct (is_Exception e) eqn:He; simpl; [discriminate|].
    intro H. injection H as <-. exact He.
Qed.

(** The list comprehension of [predict_batch], from any accumulator. *)
Lemma comprehension_predict : forall (p : predictor) texts acc out,
  match fst (comprehension (predict p) texts acc out) with
  | Ret bs =>
      exists bs', bs = (acc ++ bs')%list /\
        Forall2 (fun t b => forall o, fst (predict p t o) = Ret b) texts bs'
  | Raise x =>
      exists t, In t texts /\ forall o, fst (predict p t o) = Raise x
  end.
Proof.
  intros p texts. induction texts as [|t ts IH]; intros acc out.
  - simpl. exists []. split; [symmetry; apply app_nil_r|constructor].
  - simpl. unfold bind.
    destruct (predict p t out) as [[b|x] out1] eqn:E.
    + specialize (IH (acc ++ [b])%list out1).
      destruct (fst (comprehension (predict p) ts (acc ++ [b]) out1)) as [bs|x].
      * destruct IH as (bs' & -> & HF). exists (b :: bs'). split.
        -- rewrite <- app_assoc. reflexivity.
        -- constructor; [|exact HF].
           intro o. rewrite (predict_result_pure p t o out), E. reflexivity.
      * destruct IH as (t' & Hin & Ht'). exists t'. split; [right; exact Hin|exact Ht'].
    + simpl. exists t. split; [left; reflexivity|].
      intro o. rewrite (predict_result_pure p t o out), E. reflexivity.
Qed.

(** C6.  [predict_batch] gives a list as long as its argument whose i-th
    entry is what [predict] gives on the i-th text; it raises only what
    [predict] itself raises on one of the texts. *)
Theorem predict_batch_elementwise : forall (p : predictor) texts out,
  match fst (predict_batch p texts out) with
  | Ret bs =>
      List.length bs = List.length texts /\
      Forall2 (fun t b => forall o, fst (predict p t o) = Ret b) texts bs /\
      forall i t, nth_error texts i = Some t ->
        exists b, nth_error bs i = Some b /\
                  forall o, fst (predict p t o) = Ret b
  | Raise x =>
      is_Exception x = false /\
      exists t, In t texts /\ forall o, fst (predict p t o) = Raise x
  end.
Proof.
  intros p texts out. unfold ModelPredictor.predict_batch.
  pose proof (comprehension_predict p texts [] out) as H.
  destruct (fst (comprehension (predict p) texts [] out)) as [bs|x].
  - destruct H as (bs' & -> & HF). simpl.
    split; [symmetry; exact (Forall2_length HF)|].
    split; [exact HF|].
    clear out. induction HF as [|t b ts bs Hb HF IH]; intros i u Hi.
    + destruct i; discriminate Hi.
    + destruct i as [|i]; simpl in *.
      * injection Hi as <-. exists b. auto.
      * exact (IH i u Hi).
  - destruct H as (t & Hin & Ht). split; [|exists t; auto].
    exact (predict_raises_no_Exception p t [] (Ht [])).
Qed.

End PredictorFacts.

(** ** The form actor *)

Section EngineFacts.

Variable browser : Type.
Variable element : Type.
Variable driver_get : string -> M browser unit.
Variable find_elements : string -> M browser (list element).
Variable send_keys : element -> string -> M browser unit.
Variable click : element -> M browser unit.

Local Abbreviation participate_in_giveaway :=
  (AutomationEngine.participate_in_giveaway
     driver_get find_elements send_keys click).

(** Without a driver, [participate_in_giveaway] logs one error and
    answers [False]; the browser is not touched. *)
Lemma participate_without_driver :
  forall (eng : AutomationEngine.t) e (st : AutomationEngine.state browser),
  AutomationEngine.driver eng = false ->
  participate_in_giveaway eng e st =
  (Ret false,
   {| AutomationEngine.session := AutomationEngine.session st;
      AutomationEngine.elog :=
        (AutomationEngine.elog st
           ++ [Logger.error "WebDriver not initialized"])%list |}).
Proof.
  intros eng e st H. unfold AutomationEngine.participate_in_giveaway.
  rewrite H. reflexivity.
Qed.

(** [_init_driver] leaves [driver] at [None] when [webdriver.Chrome]
    raises. *)
Lemma engine_init_failed :
  forall headless chrome (st : AutomationEngine.state browser) eng st',
  AutomationEngine.init headless chrome st = (Ret eng, st') ->
  returned chrome = None ->
  AutomationEngine.driver eng = false.
Proof.
  intros headless chrome st eng st' Hinit Hfail.
  destruct chrome as [u|x]; [discriminate Hfail|].
  unfold AutomationEngine.init, try_except, bind, lift, ret in Hinit.
  simpl in Hinit.
  destruct (is_Exception x); simpl in Hinit; [|discriminate Hinit].
  injection Hinit as <- _. reflexivity.
Qed.

End EngineFacts.

(** C4.  When loading the model or the tokenizer raised in
    [ModelPredictor.__init__], [predict] gives [False] and
    [get_confidence_score] gives [0.0] on every text; when
    [webdriver.Chrome] raised in [AutomationEngine.__init__],
    [participate_in_giveaway] gives [False] on every message.  None of the
    three raises, and the browser session is left alone. *)
Theorem unavailable_ports_are_inert :
  forall (ndarray : Type) (str_lower : string -> string)
         (pad_sequences : list (list Z) -> Z -> outcome ndarray)
         (load_model : outcome (ModelPredictor.Model ndarray))
         (load_tokenizer : outcome ModelPredictor.Tokenizer)
         (out0 out1 : ModelPredictor.stdout) (p : ModelPredictor.t ndarray)
         (browser element : Type)
         (driver_get : string -> M browser unit)
         (find_elements : string -> M browser (list element))
         (send_keys : element -> string -> M browser unit)
         (click : element -> M browser unit)
         (headless : bool) (chrome : outcome unit)
         (st0 st1 : AutomationEngine.state browser) (eng : AutomationEngine.t),
  ModelPredictor.init load_model load_tokenizer out0 = (Ret p, out1) ->
  returned load_model = None \/ returned load_tokenizer = None ->
  AutomationEngine.init headless chrome st0 = (Ret eng, st1) ->
  returned chrome = None ->
  (forall text out,
      fst (ModelPredictor.predict str_lower pad_sequences p text out) = Ret false /\
      ModelPredictor.get_confidence_score str_lower pad_sequences p text out
        = (Ret 0%float, out)) /\
  (forall e st,
      fst (AutomationEngine.participate_in_giveaway
             driver_get find_elements send_keys click eng e st) = Ret false /\
      AutomationEngine.session
        (snd (AutomationEngine.participate_in_giveaway
                driver_get find_elements send_keys click eng e st))
        = AutomationEngine.session st).
Proof.
  intros ndarray str_lower pad_sequences load_model load_tokenizer out0 out1 p
         browser element driver_get find_elements send_keys click
         headless chrome st0 st1 eng Hp Hload Heng Hchrome.
  assert (Hun : ModelPredictor.loaded p = false)
    by (eapply init_failed_unloaded; eassumption).
  assert (Hdrv : AutomationEngine.driver eng = false)
    by (eapply engine_init_failed; eassumption).
  split.
  - intros text out. split.
    + rewrite (predict_unloaded str_lower pad_sequences p text out Hun).
      reflexivity.
    + apply confidence_unloaded. exact Hun.
  - intros e st.
    rewrite (participate_without_driver
               driver_get find_elements send_keys click eng e st Hdrv).
    split; reflexivity.
Qed.

Lemma unavailable_ports_are_inert_witness :
  let load_model : outcome (ModelPredictor.Model (list (list Z))) :=
      Raise (mk_exn ValueError "No file or directory found at models/lstm_model.h5") in
  let chrome : outcome unit :=
      Raise (mk_exn WebDriverException "unable to obtain chromedriver") in
  let p := {| ModelPredictor.model := None;
              ModelPredictor.tokenizer := None;
              ModelPredictor.max_length := None |} in
  let eng := {| AutomationEngine.driver := false;
                AutomationEngine.headless := false |} in
  (forall text out,
      fst (ModelPredictor.predict Fixture.str_lower Fixture.pad_sequences
             p text out) = Ret false /\
      ModelPredictor.get_confidence_score Fixture.str_lower Fixture.pad_sequences
        p text out = (Ret 0%float, out)) /\
  (forall e st,
      fst (AutomationEngine.participate_in_giveaway
             Fixture.driver_get Fixture.find_elements Fixture.send_keys
             Fixture.click eng e st) = Ret false /\
      AutomationEngine.session
        (snd (AutomationEngine.participate_in_giveaway
                Fixture.driver_get Fixture.find_elements Fixture.send_keys
                Fixture.click eng e st))
        = AutomationEngine.session st).
Proof.
  intros load_model chrome p eng.
  eapply (@unavailable_ports_are_inert
           (list (list Z)) Fixture.str_lower Fixture.pad_sequences
           load_model (Ret Fixture.tokenizer) [] _ p
           Fixture.browser nat
           Fixture.driver_get Fixture.find_elements Fixture.send_keys
           Fixture.click false chrome Fixture.no_session _ eng).
  - reflexivity.
  - left. reflexivity.
  - reflexivity.
  - reflexivity.
Defined.

(** ** The classifier on concrete models *)

Lemma predict_threshold_witness :
  (exists b,
      ModelPredictor.predict Fixture.str_lower Fixture.pad_sequences
        (Fixture.predictor_of Fixture.two_by_two) "Win a Car" [] = (Ret b, []) /\
      (b = true <-> PrimFloat.ltb 0.5%float 0.5%float = true)) /\
  (0.5%float = 0.5%float ->
   ModelPredictor.predict Fixture.str_lower Fixture.pad_sequences
     (Fixture.predictor_of Fixture.two_by_two) "Win a Car" [] = (Ret false, [])).
Proof.
  eapply (@predict_threshold (list (list Z)) Fixture.str_lower
            Fixture.pad_sequences (Fixture.predictor_of Fixture.two_by_two)
            (Fixture.table_model Fixture.two_by_two) Fixture.tokenizer 100%Z
            "Win a Car" _ _ 0.5%float [0.9%float] [[0.7%float; 0.8%float]]).
  - reflexivity.
  - reflexivity.
  - reflexivity.
  - reflexivity.
  - reflexivity.
  - reflexivity.
Defined.

(** A score just above one half gives [True], one just below [False]. *)
Example predict_above_and_below_threshold :
  fst (ModelPredictor.predict Fixture.str_lower Fixture.pad_sequences
         (Fixture.predictor 0.51%float) "Win a Car" []) = Ret true /\
  fst (ModelPredictor.predict Fixture.str_lower Fixture.pad_sequences
         (Fixture.predictor 0.49%float) "Win a Car" []) = Ret false.
Proof. split; vm_compute; reflexivity. Qed.

(** C8.  The code at a model whose output layer is not bounded by 1: the
    model gives 1.5 for the text, [get_confidence_score] returns 1.5 as it
    is, and 1.5 is not between 0.0 and 1.0, against the claim and against
    the docstring of the method, which announces a score from 0 to 1. *)
Lemma confidence_above_one :
  ModelPredictor.get_confidence_score
    Fixture.str_lower Fixture.pad_sequences
    (Fixture.predictor 1.5%float) "Win a Car" [] = (Ret 1.5%float, []) /\
  Spec.in_unit_interval 1.5%float = false.
Proof. split; reflexivity. Qed.

(** ** The pattern of [_extract_link] *)

Lemma sapp_assoc : forall a b c : string, (a ++ b) ++ c = a ++ (b ++ c).
Proof.
  induction a as [|x a IH]; intros b c; simpl; [reflexivity|].
  rewrite IH. reflexivity.
Qed.

Lemma slength_app : forall a b : string,
  String.length (a ++ b) = String.length a + String.length b.
Proof.
  induction a as [|x a IH]; intro b; simpl; [reflexivity|].
  rewrite IH. reflexivity.
Qed.

Lemma sapp_inv_head : forall a b c : string, a ++ b = a ++ c -> b = c.
Proof.
  induction a as [|x a IH]; intros b c H; simpl in H; [exact H|].
  injection H as H. exact (IH _ _ H).
Qed.

Lemma is_single_url_char : forall c,
  AutomationEngine.is_single c = Spec.url_char c.
Proof.
  intro c. unfold AutomationEngine.is_single, Spec.url_char.
  destruct (AutomationEngine.is_alpha c); [reflexivity|].
  destruct (AutomationEngine.is_digit c); [reflexivity|].
  destruct (AutomationEngine.is_punct c); reflexivity.
Qed.

(** The percent sign lies between [$] and [_]: the third alternative
    takes it before the escape alternative is tried. *)
Lemma percent_is_single : forall c,
  Ascii.eqb c "%" = true -> AutomationEngine.is_single c = true.
Proof.
  intros c H. apply Ascii.eqb_eq in H. subst c. reflexivity.
Qed.

Lemma atoms_spec : forall s m r,
  AutomationEngine.atoms s = (m, r) ->
  s = m ++ r /\ Spec.all_chars Spec.url_char m = true /\ Spec.stops r.
Proof.
  induction s as [|c rest IH]; intros m r H; simpl in H.
  - injection H as <- <-. repeat split.
  - destruct (AutomationEngine.is_single c) eqn:Hc.
    + destruct (AutomationEngine.atoms rest) as [m' r'] eqn:E.
      injection H as <- <-.
      destruct (IH m' r' eq_refl) as (-> & Hall & Hstop).
      repeat split; [|exact Hstop].
      simpl. rewrite <- is_single_url_char, Hc. exact Hall.
    + assert (Hp : Ascii.eqb c "%" = false).
      { destruct (Ascii.eqb c "%") eqn:Hp; [|reflexivity].
        rewrite (percent_is_single c Hp) in Hc. discriminate Hc. }
      rewrite Hp in H. simpl in H.
      assert (E : (m, r) = (EmptyString, String c rest)).
      { destruct rest as [|h1 [|h2 rest']]; symmetry; exact H. }
      injection E as -> ->. repeat split.
      simpl. rewrite <- is_single_url_char. exact Hc.
Qed.

(** A run of group characters at the start of [m ++ r] is no longer than
    [m] when [m ++ r] stops after [m]. *)
Lemma run_bounded : forall m r v post,
  Spec.all_chars Spec.url_char v = true -> Spec.stops r ->
  m ++ r = v ++ post -> String.length v <= String.length m.
Proof.
  induction m as [|a m IH]; intros r v post Hv Hr E.
  - destruct v as [|c v]; [apply Nat.le_refl|].
    simpl in E. subst r. simpl in Hr, Hv. rewrite Hr in Hv. discriminate Hv.
  - destruct v as [|c v]; [apply Nat.le_0_l|].
    simpl in E. injection E as -> E. simpl in Hv.
    apply andb_prop in Hv. destruct Hv as [_ Hv].
    simpl. apply le_n_S. exact (IH r v post Hv Hr E).
Qed.

Lemma strip_prefix_some : forall lit s r,
  AutomationEngine.strip_prefix lit s = Some r -> s = lit ++ r.
Proof.
  induction lit as [|a lit IH]; intros s r H; simpl in H.
  - injection H as ->. reflexivity.
  - destruct s as [|c s]; [discriminate H|].
    destruct (Ascii.eqb a c) eqn:E; [|discriminate H].
    apply Ascii.eqb_eq in E. subst c. simpl. rewrite (IH s r H). reflexivity.
Qed.

Lemma strip_prefix_none : forall lit s r,
  AutomationEngine.strip_prefix lit s = None -> s <> lit ++ r.
Proof.
  induction lit as [|a lit IH]; intros s r H E; simpl in H.
  - discriminate H.
  - destruct s as [|c s]; simpl in E; [discriminate E|].
    injection E as -> E. rewrite Ascii.eqb_refl in H. exact (IH s r H E).
Qed.

(** [match_tail] takes [://] and the longest run of group characters
    after it, which must not be empty. *)
Lemma match_tail_some : forall s t,
  AutomationEngine.match_tail s = Some t ->
  exists tail post,
    t = "://" ++ tail /\ s = t ++ post /\ tail <> "" /\
    Spec.all_chars Spec.url_char tail = true /\ Spec.stops post.
Proof.
  intros s t H. unfold AutomationEngine.match_tail in H.
  destruct (AutomationEngine.strip_prefix "://" s) as [r|] eqn:Hs;
    [|discriminate H].
  apply strip_prefix_some in Hs.
  destruct (AutomationEngine.atoms r) as [m post] eqn:Ha.
  destruct (atoms_spec r Ha) as (-> & Hall & Hstop).
  destruct m as [|c m]; [discriminate H|].
  injection H as <-. exists (String c m), post.
  repeat split; try assumption; discriminate.
Qed.

Lemma match_tail_none : forall s tail post,
  AutomationEngine.match_tail s = None ->
  s = "://" ++ tail ++ post ->
  Spec.all_chars Spec.url_char tail = true -> tail = "".
Proof.
  intros s tail post H E Hall. unfold AutomationEngine.match_tail in H.
  destruct (AutomationEngine.strip_prefix "://" s) as [r|] eqn:Hs.
  - apply strip_prefix_some in Hs. rewrite Hs in E.
    apply sapp_inv_head in E.
    destruct (AutomationEngine.atoms r) as [m post0] eqn:Ha.
    destruct (atoms_spec r Ha) as (Hr & _ & Hstop).
    destruct m as [|c m]; [|discriminate H].
    rewrite Hr in E.
    pose proof (run_bounded "" post0 tail post Hall Hstop E) as Hlen.
    destruct tail; [reflexivity|simpl in Hlen; lia].
  - exfalso. exact (@strip_prefix_none "://" s (tail ++ post) Hs E).
Qed.

(** A match at the first character is URL-shaped, stops where the group
    stops, and is the longest URL-shaped text that starts there. *)
Lemma match_here_some : forall s u,
  AutomationEngine.match_here s = Some u ->
  Spec.url_shaped u /\
  exists post, s = u ++ post /\
    forall v post', s = v ++ post' -> Spec.url_shaped v ->
                    String.length v <= String.length u.
Proof.
  intros s u H. unfold AutomationEngine.match_here in H.
  destruct (AutomationEngine.strip_prefix "http" s) as [r|] eqn:Hs;
    [|discriminate H].
  apply strip_prefix_some in Hs. subst s.
  destruct (AutomationEngine.strip_prefix "s" r) as [r'|] eqn:Hr.
  - apply strip_prefix_some in Hr. subst r.
    destruct (AutomationEngine.match_tail r') as [m|] eqn:Hm.
    + injection H as <-.
      destruct (match_tail_some r' Hm) as (tail & post & -> & -> & Hne & Hall & Hstop).
      split.
      * exists "https://", tail. repeat split; auto.
      * exists post. split; [reflexivity|].
        intros v post' E (scheme & t & [-> | ->] & -> & _ & Ht);
          simpl in E; [discriminate E|].
        injection E as E.
        pose proof (run_bounded tail post t post' Ht Hstop E).
        simpl. lia.
    + simpl in H. discriminate H.
  - destruct (AutomationEngine.match_tail r) as [m|] eqn:Hm;
      [|discriminate H].
    injection H as <-.
    destruct (match_tail_some r Hm) as (tail & post & -> & -> & Hne & Hall & Hstop).
    split.
    + exists "http://", tail. repeat split; auto.
    + exists post. split; [reflexivity|].
      intros v post' E (scheme & t & [-> | ->] & -> & _ & Ht);
        simpl in E; [|discriminate E].
      injection E as E.
      pose proof (run_bounded tail post t post' Ht Hstop E).
      simpl. lia.
Qed.

(** No match at the first character: no URL-shaped text starts there. *)
Lemma match_here_none : forall s v post,
  AutomationEngine.match_here s = None ->
  s = v ++ post -> ~ Spec.url_shaped v.
Proof.
  intros s v post H E (scheme & t & Hscheme & -> & Hne & Ht).
  unfold AutomationEngine.match_here in H.
  destruct (AutomationEngine.strip_prefix "http" s) as [r|] eqn:Hs.
  - apply strip_prefix_some in Hs. subst s.
    destruct (AutomationEngine.strip_prefix "s" r) as [r'|] eqn:Hr.
    + apply strip_prefix_some in Hr. subst r.
      destruct (AutomationEngine.match_tail r') as [m|] eqn:Hm;
        [discriminate H|].
      destruct Hscheme as [-> | ->]; simpl in E; [discriminate E|].
      injection E as E.
      apply Hne.
      apply (@match_tail_none r' t post Hm);
        [|exact Ht].
      rewrite E. reflexivity.
    + destruct (AutomationEngine.match_tail r) as [m|] eqn:Hm;
        [discriminate H|].
      destruct Hscheme as [-> | ->]; simpl in E.
      * injection E as E. apply Hne.
        apply (@match_tail_none r t post Hm);
          [|exact Ht].
        rewrite E. reflexivity.
      * injection E as E.
        apply (@strip_prefix_none "s" r ("://" ++ t ++ post) Hr).
        rewrite E. reflexivity.
  - destruct Hscheme as [-> | ->].
    + apply (@strip_prefix_none "http" s (("://" ++ t) ++ post)%string Hs).
      rewrite E. reflexivity.
    + apply (@strip_prefix_none "http" s (("s://" ++ t) ++ post)%string Hs).
      rewrite E. reflexivity.
Qed.

(** The first entry of [re.findall]: a match, with no match starting at
    any earlier character; no entry at all when nothing matches
    anywhere. *)
Lemma findall_head : forall s,
  match AutomationEngine.findall_from 0 s with
  | u :: _ =>
      exists pre post,
        s = pre ++ u ++ post /\
        AutomationEngine.match_here (u ++ post) = Some u /\
        forall pre' rest', s = pre' ++ rest' ->
          String.length pre' < String.length pre ->
          AutomationEngine.match_here rest' = None
  | [] =>
      forall pre rest, s = pre ++ rest ->
        AutomationEngine.match_here rest = None
  end.
Proof.
  induction s as [|c rest IH].
  - simpl. intros pre rest E.
    destruct pre; [|discriminate E]. simpl in E. subst rest. reflexivity.
  - cbn [AutomationEngine.findall_from].
    destruct (AutomationEngine.match_here (String c rest)) as [m|] eqn:Hm.
    + destruct (@match_here_some _ _ Hm) as (_ & post & E & _).
      exists "", post. split; [exact E|]. split.
      * rewrite <- E. exact Hm.
      * intros pre' rest' _ Hlt. simpl in Hlt. lia.
    + destruct (AutomationEngine.findall_from 0 rest) as [|u us].
      * intros pre rest0 E. destruct pre as [|a pre]; simpl in E.
        -- subst rest0. exact Hm.
        -- injection E as _ E. exact (IH pre rest0 E).
      * destruct IH as (pre & post & E & Hu & Hfirst).
        exists (String c pre), post. split; [simpl; rewrite E; reflexivity|].
        split; [exact Hu|].
        intros pre' rest' E' Hlt. destruct pre' as [|a pre']; simpl in E'.
        -- subst rest'. exact Hm.
        -- injection E' as _ E'. apply (Hfirst pre' rest' E').
           simpl in Hlt. lia.
Qed.

(** C7.  [_extract_link] gives the URL-shaped text that starts first in
    the body, taken as far as it goes, and [None] when the body holds no
    URL-shaped text; on the body of the example it gives the first of the
    two links. *)
Theorem extract_link_first_match :
  (forall body,
     match AutomationEngine._extract_link body with
     | Some u =>
         exists pre post,
           body = pre ++ u ++ post /\
           Spec.url_shaped u /\
           (forall pre' v post', body = pre' ++ v ++ post' ->
              Spec.url_shaped v -> String.length pre <= String.length pre') /\
           (forall v post', u ++ post = v ++ post' ->
              Spec.url_shaped v -> String.length v <= String.length u)
     | None =>
         forall pre v post, body = pre ++ v ++ post -> ~ Spec.url_shaped v
     end) /\
  AutomationEngine._extract_link
    "Visit http://example.com/win now and also https://other.com/x"
  = Some "http://example.com/win".
Proof.
  split; [|reflexivity].
  intro body. unfold AutomationEngine._extract_link, AutomationEngine.findall.
  pose proof (findall_head body) as H.
  destruct (AutomationEngine.findall_from 0 body) as [|u us].
  - intros pre v post E. exact (@match_here_none (v ++ post) v post (H pre (v ++ post) E) eq_refl).
  - destruct H as (pre & post & E & Hu & Hfirst).
    destruct (@match_here_some _ _ Hu) as (Hshape & post0 & E0 & Hmax).
    exists pre, post. split; [exact E|]. split; [exact Hshape|]. split.
    + intros pre' v post' E' Hv.
      destruct (Nat.le_gt_cases (String.length pre) (String.length pre'))
        as [Hle|Hlt]; [exact Hle|].
      exfalso.
      exact (@match_here_none (v ++ post') v post' (Hfirst pre' (v ++ post') E' Hlt) eq_refl Hv).
    + exact Hmax.
Qed.

(** ** The processing cycle *)

Section OrchestratorFacts.

Variable St : Type.
Variable self : Main.collaborators St.

Local Abbreviation world := (Main.world St).
Local Abbreviation guarded_one := (Main.guarded_one self).
Local Abbreviation process_one := (Main.process_one self).
Local Abbreviation process_emails := (Main.process_emails self).

(** One turn of the loop, whatever the collaborators do. *)
Lemma guarded_one_run : forall e (w : world),
  exists seg lg,
    Main.calls (snd (guarded_one e w)) = (Main.calls w ++ seg)%list /\
    Main.log (snd (guarded_one e w)) = (Main.log w ++ lg)%list /\
    Spec.message_run e seg lg (fst (guarded_one e w)).
Proof.
  intros e w.
  unfold Main.guarded_one, try_except, Main.process_one, bind, Main.invoke.
  destruct (Main.predict self (Main._extract_email_text e) (Main.collab w))
    as [[p|x] s1]; cbn.
  2:{ eexists _, (fst (Spec.after_raise x)).
      pose proof (Spec.run_predict_raised e x) as R.
      unfold Spec.after_raise in *.
      destruct (is_Exception x); cbn in *;
        (split; [reflexivity|split; [rewrite ?app_nil_r; reflexivity|exact R]]). }
  destruct (Main.get_confidence_score self (Main._extract_email_text e) s1)
    as [[c|x] s2]; cbn.
  2:{ eexists _, (fst (Spec.after_raise x)).
      pose proof (Spec.run_confidence_raised e p x) as R.
      unfold Spec.after_raise in *.
      destruct (is_Exception x); cbn in *;
        (split; [rewrite <- ?app_assoc; reflexivity
                |split; [rewrite ?app_nil_r; reflexivity|exact R]]). }
  destruct (Main.gate p c) eqn:Hg; cbn.
  2:{ eexists _, _.
      split; [rewrite <- !app_assoc; reflexivity|].
      split; [reflexivity|].
      apply Spec.run_skipped. exact Hg. }
  destruct (Main.participate_in_giveaway self e s2) as [[b|x] s3]; cbn.
  - eexists _, _.
    split; [rewrite <- !app_assoc; reflexivity|].
    split; [rewrite <- !app_assoc; reflexivity|].
    apply Spec.run_acted. exact Hg.
  - eexists _, ([Main.verdict_record e p c; Main.attempt_record]
                 ++ fst (Spec.after_raise x))%list.
    pose proof (@Spec.run_participate_raised e p c x Hg) as R.
    unfold Spec.after_raise in *.
    destruct (is_Exception x); cbn in *;
      (split; [rewrite <- ?app_assoc; reflexivity
              |split; [rewrite <- ?app_assoc; reflexivity|exact R]]).
Qed.

(** The loop over a batch, whatever the collaborators do. *)
Lemma for_each_run : forall batch (w : world),
  exists cs ls,
    Main.calls (snd (for_each batch guarded_one w)) = (Main.calls w ++ cs)%list /\
    Main.log (snd (for_each batch guarded_one w)) = (Main.log w ++ ls)%list /\
    Spec.loop_run batch cs ls (fst (for_each batch guarded_one w)).
Proof.
  induction batch as [|e es IH]; intro w.
  - exists [], []. cbn. rewrite !app_nil_r. repeat split. constructor.
  - destruct (guarded_one_run e w) as (seg & lg & Hc & Hl & Hrun).
    cbn [for_each]. unfold bind.
    destruct (guarded_one e w) as [[[]|x] w1]; cbn in Hc, Hl, Hrun.
    + destruct (IH w1) as (cs & ls & Hc' & Hl' & Hloop).
      exists (seg ++ cs)%list, (lg ++ ls)%list.
      rewrite Hc', Hl', Hc, Hl, <- !app_assoc.
      repeat split. apply Spec.loop_next; assumption.
    + exists seg, lg. cbn. repeat split; try assumption.
      apply Spec.loop_abort. exact Hrun.
Qed.

End OrchestratorFacts.

(** *** What a turn and a loop look like from outside *)

Lemma after_raise_returns : forall x,
  snd (Spec.after_raise x) = Ret tt ->
  is_Exception x = true /\ fst (Spec.after_raise x) = [Main.error_record x].
Proof.
  intros x H. unfold Spec.after_raise in *.
  destruct (is_Exception x); [split; reflexivity|discriminate H].
Qed.

Lemma after_raise_raises : forall x y,
  snd (Spec.after_raise x) = Raise y ->
  y = x /\ is_Exception x = false /\ fst (Spec.after_raise x) = [].
Proof.
  intros x y H. unfold Spec.after_raise in *.
  destruct (is_Exception x); [discriminate H|].
  injection H as <-. repeat split.
Qed.

(** A turn lets an exception out only if it is no [Exception]. *)
Lemma message_run_raise : forall e seg lg x,
  Spec.message_run e seg lg (Raise x) -> is_Exception x = false.
Proof.
  intros e seg lg x H. inversion H as [y Hs Hl Hr|p y Hs Hl Hr| | |p c y Hg Hs Hl Hr];
    apply after_raise_raises in Hr; destruct Hr as (-> & Hx & _); exact Hx.
Qed.

Lemma loop_run_raise : forall batch cs ls x,
  Spec.loop_run batch cs ls (Raise x) -> is_Exception x = false.
Proof.
  intros batch cs ls x H.
  remember (Raise x : outcome unit) as r eqn:Hr.
  induction H as [|e es seg lg cs ls r Hm Hl IH|e es seg lg y Hm].
  - discriminate Hr.
  - exact (IH Hr).
  - injection Hr as ->. exact (message_run_raise Hm).
Qed.

(** The calls of a turn are those of [message_calls]. *)
Lemma message_run_calls : forall e seg lg r,
  Spec.message_run e seg lg r -> Spec.message_calls e seg.
Proof.
  intros e seg lg r H. destruct H; constructor; assumption.
Qed.

(** The calls of a loop, message by message; a loop that an exception
    cuts short has made the calls of the messages it reached. *)
Lemma loop_run_segments : forall batch cs ls r,
  Spec.loop_run batch cs ls r ->
  exists segs,
    cs = List.concat segs /\
    Forall2 Spec.message_calls (firstn (List.length segs) batch) segs /\
    (r = Ret tt -> List.length segs = List.length batch).
Proof.
  intros batch cs ls r H.
  induction H as [|e es seg lg cs ls r Hm Hl IH|e es seg lg y Hm].
  - exists []. repeat split. constructor.
  - destruct IH as (segs & -> & HF & Hlen).
    exists (seg :: segs). cbn. repeat split.
    + constructor; [exact (message_run_calls Hm)|exact HF].
    + intro Hr. rewrite (Hlen Hr). reflexivity.
  - exists [seg]. cbn. rewrite app_nil_r. repeat split.
    + constructor; [exact (message_run_calls Hm)|constructor].
    + discriminate.
Qed.

(** What [message_calls] says about the third call. *)
Lemma message_calls_gate : forall e seg p c,
  Spec.message_calls e seg ->
  In (Main.CallPredict (Main._extract_email_text e) (Ret p)) seg ->
  In (Main.CallConfidence (Main._extract_email_text e) (Ret c)) seg ->
  ((exists r, In (Main.CallParticipate e r) seg) <->
   p = true /\ PrimFloat.ltb 0.85%float c = true).
Proof.
  intros e seg p c H Hp Hc.
  assert (Hgate : forall q d, Main.gate q d = true <->
                    q = true /\ PrimFloat.ltb 0.85%float d = true).
  { intros q d. unfold Main.gate. apply andb_true_iff. }
  destruct H as [x|q x|q d Hg|q d r Hg]; cbn in Hp, Hc.
  - destruct Hp as [Hp|[]]. discriminate Hp.
  - destruct Hc as [Hc|[Hc|[]]]; discriminate Hc.
  - destruct Hp as [Hp|[Hp|[]]]; [|discriminate Hp].
    destruct Hc as [Hc|[Hc|[]]]; [discriminate Hc|].
    injection Hp as ->. injection Hc as ->. split.
    + intros (r & [Hr|[Hr|[]]]); discriminate Hr.
    + intro Hpc. apply Hgate in Hpc. rewrite Hpc in Hg. discriminate Hg.
  - destruct Hp as [Hp|[Hp|[Hp|[]]]]; try discriminate Hp.
    destruct Hc as [Hc|[Hc|[Hc|[]]]]; try discriminate Hc.
    injection Hp as ->. injection Hc as ->. split.
    + intros _. apply Hgate. exact Hg.
    + intros _. exists r. cbn. auto.
Qed.

Section CycleFacts.

Variable St : Type.
Variable self : Main.collaborators St.

Local Abbreviation fetched_record :=
  (fun batch : list email =>
     Logger.info ("Fetched " ++ Main.str_of_nat (List.length batch)
                  ++ " unread emails")).

(** A cycle whose fetch gave a batch, up to the loop. *)
Lemma process_emails_unfold : forall (w : Main.world St) batch st1,
  Main.fetch_emails self "Giveaway" true 10%Z (Main.collab w) = (Ret batch, st1) ->
  Main.process_emails self w =
  match for_each batch (Main.guarded_one self)
          {| Main.collab := st1;
             Main.log :=
               ((Main.log w ++ [Logger.info "Starting email processing cycle"])
                  ++ [fetched_record batch])%list;
             Main.calls :=
               (Main.calls w ++ [Main.CallFetch "Giveaway" true (Ret batch)])%list |}
  with
  | (Ret _, w1) =>
      Main.logger (Logger.info "Email processing cycle completed") w1
  | (Raise x, w1) =>
      if is_Exception x then Main.logger (Main.critical_record x) w1
      else (Raise x, w1)
  end.
Proof.
  intros w batch st1 Hf.
  unfold Main.process_emails, try_except, bind, Main.invoke.
  cbn. rewrite Hf. cbn.
  match goal with
  | |- context [for_each batch (Main.guarded_one self) ?w0] =>
      destruct (for_each batch (Main.guarded_one self) w0) as [[[]|x] w1]
  end; reflexivity.
Qed.

(** A cycle whose fetch gave a batch: the loop runs over the batch, and
    the cycle ends as the loop ends. *)
Lemma process_emails_fetched : forall (w : Main.world St) batch st1,
  Main.fetch_emails self "Giveaway" true 10%Z (Main.collab w) = (Ret batch, st1) ->
  exists cs ls,
    Spec.loop_run batch cs ls (fst (Main.process_emails self w)) /\
    Main.calls (snd (Main.process_emails self w))
      = (Main.calls w ++ Main.CallFetch "Giveaway" true (Ret batch) :: cs)%list /\
    Main.log (snd (Main.process_emails self w))
      = (Main.log w
           ++ [Logger.info "Starting email processing cycle"; fetched_record batch]
           ++ ls
           ++ match fst (Main.process_emails self w) with
              | Ret _ => [Logger.info "Email processing cycle completed"]
              | Raise _ => []
              end)%list.
Proof.
  intros w batch st1 Hf.
  rewrite (process_emails_unfold w Hf).
  match goal with
  | |- context [for_each batch (Main.guarded_one self) ?w0] =>
      destruct (for_each_run self batch w0) as (cs & ls & Hc & Hl & Hloop);
      destruct (for_each batch (Main.guarded_one self) w0) as [[[]|x] w1]
  end; cbn in Hc, Hl, Hloop.
  - exists cs, ls. cbn. rewrite Hc, Hl, <- !app_assoc. cbn. repeat split.
    exact Hloop.
  - pose proof (loop_run_raise Hloop) as Hx. rewrite Hx.
    exists cs, ls. cbn. rewrite Hc, Hl, <- !app_assoc, app_nil_r. cbn.
    repeat split. exact Hloop.
Qed.

End CycleFacts.

(** C1.  In a cycle whose fetch gave a batch, the calls on the
    collaborators after the fetch fall into one group per message, in the
    order of the batch, and in each group [participate_in_giveaway] is
    called on the message exactly when [predict] gave [True] and
    [get_confidence_score] gave a score strictly above 0.85.  A score of
    exactly 0.85 does not pass the gate. *)
Theorem process_emails_gate :
  forall (St : Type) (self : Main.collaborators St) (w : Main.world St)
         (batch : list email) (st1 : St),
  Main.fetch_emails self "Giveaway" true 10%Z (Main.collab w) = (Ret batch, st1) ->
  (exists segs,
      Main.calls (snd (Main.process_emails self w))
        = (Main.calls w
             ++ Main.CallFetch "Giveaway" true (Ret batch) :: List.concat segs)%list /\
      Forall2 Spec.message_calls (firstn (List.length segs) batch) segs /\
      (fst (Main.process_emails self w) = Ret tt ->
       List.length segs = List.length batch)) /\
  (forall e seg p c,
      Spec.message_calls e seg ->
      In (Main.CallPredict (Main._extract_email_text e) (Ret p)) seg ->
      In (Main.CallConfidence (Main._extract_email_text e) (Ret c)) seg ->
      ((exists r, In (Main.CallParticipate e r) seg) <->
       p = true /\ PrimFloat.ltb 0.85%float c = true)) /\
  Main.gate true 0.85%float = false.
Proof.
  intros St self w batch st1 Hf. split; [|split].
  - destruct (process_emails_fetched self w Hf) as (cs & ls & Hloop & Hc & _).
    destruct (loop_run_segments Hloop) as (segs & -> & HF & Hlen).
    exists segs. repeat split; assumption.
  - intros e seg p c. apply message_calls_gate.
  - reflexivity.
Qed.

Lemma process_emails_gate_witness :
  let self := Fixture.fake (Ret [Fixture.car; Fixture.corrupt; Fixture.phone]) in
  let batch := [Fixture.car; Fixture.corrupt; Fixture.phone] in
  (exists segs,
      Main.calls (snd (Main.process_emails self Fixture.start))
        = (Main.calls Fixture.start
             ++ Main.CallFetch "Giveaway" true (Ret batch) :: List.concat segs)%list /\
      Forall2 Spec.message_calls (firstn (List.length segs) batch) segs /\
      (fst (Main.process_emails self Fixture.start) = Ret tt ->
       List.length segs = List.length batch)) /\
  (forall e seg p c,
      Spec.message_calls e seg ->
      In (Main.CallPredict (Main._extract_email_text e) (Ret p)) seg ->
      In (Main.CallConfidence (Main._extract_email_text e) (Ret c)) seg ->
      ((exists r, In (Main.CallParticipate e r) seg) <->
       p = true /\ PrimFloat.ltb 0.85%float c = true)) /\
  Main.gate true 0.85%float = false.
Proof.
  intros self batch.
  apply (@process_emails_gate nat self Fixture.start batch 1).
  reflexivity.
Defined.

(** The same cycle, call by call: the car, at exactly 0.85, is skipped;
    the corrupt message fails in [predict]; the phone, at 0.97, is acted
    upon. *)
Example process_emails_calls :
  Main.calls
    (snd (Main.process_emails
            (Fixture.fake (Ret [Fixture.car; Fixture.corrupt; Fixture.phone]))
            Fixture.start))
  = [ Main.CallFetch "Giveaway" true
        (Ret [Fixture.car; Fixture.corrupt; Fixture.phone]);
      Main.CallPredict (Main._extract_email_text Fixture.car) (Ret true);
      Main.CallConfidence (Main._extract_email_text Fixture.car) (Ret 0.85%float);
      Main.CallPredict (Main._extract_email_text Fixture.corrupt)
        (Raise (mk_exn ValueError "could not tokenize"));
      Main.CallPredict (Main._extract_email_text Fixture.phone) (Ret true);
      Main.CallConfidence (Main._extract_email_text Fixture.phone) (Ret 0.97%float);
      Main.CallParticipate Fixture.phone (Ret true) ].
Proof. vm_compute. reflexivity. Qed.

(** *** Counting outcomes *)

Lemma n_failed_app : forall a b,
  Spec.n_failed (a ++ b) = Spec.n_failed a + Spec.n_failed b.
Proof.
  intros a b. unfold Spec.n_failed. rewrite filter_app, length_app. reflexivity.
Qed.

(** The records of a list come before those of another that does not
    start with the record of an attempt: the skipped messages of the two
    add up. *)
Lemma attempt_follows_app : forall a b,
  Spec.attempt_follows a = false ->
  Spec.attempt_follows b = false ->
  Spec.attempt_follows (a ++ b) = false.
Proof.
  intros [|r a] b Ha Hb; [exact Hb|exact Ha].
Qed.

Lemma n_skipped_app : forall a b,
  Spec.attempt_follows b = false ->
  Spec.n_skipped (a ++ b) = Spec.n_skipped a + Spec.n_skipped b.
Proof.
  intros a b Hb. induction a as [|r a IH]; [reflexivity|].
  cbn [app Spec.n_skipped]. rewrite IH.
  assert (E : Spec.attempt_follows (a ++ b) = Spec.attempt_follows a).
  { destruct a as [|r' a]; [exact Hb|reflexivity]. }
  rewrite E. lia.
Qed.

Lemma n_acted_app : forall a b,
  Spec.n_acted (a ++ b) = Spec.n_acted a + Spec.n_acted b.
Proof.
  intros a b. unfold Spec.n_acted. rewrite filter_app, length_app. reflexivity.
Qed.

(** The record of an error is not the record of an attempt. *)
Lemma error_record_is_no_attempt : forall x,
  Spec.is_attempt (Main.error_record x) = false.
Proof. intro x. reflexivity. Qed.

(** The records of a turn do not start with the record of an attempt:
    the first one, if there is one, is the verdict or an error. *)
Lemma message_run_first_record : forall e seg lg r,
  Spec.message_run e seg lg r -> Spec.attempt_follows lg = false.
Proof.
  intros e seg lg r H. destruct H as [x|p x|p c Hg|p c b Hg|p c x Hg];
    try reflexivity;
    unfold Spec.after_raise; destruct (is_Exception x); reflexivity.
Qed.

Lemma loop_run_first_record : forall batch cs ls r,
  Spec.loop_run batch cs ls r -> Spec.attempt_follows ls = false.
Proof.
  intros batch cs ls r H.
  induction H as [|e es seg lg cs ls r Hm Hl IH|e es seg lg y Hm].
  - reflexivity.
  - apply attempt_follows_app; [exact (message_run_first_record Hm)|exact IH].
  - exact (message_run_first_record Hm).
Qed.

(** A turn that the loop survives leaves exactly one outcome: the message
    failed, was skipped, or was acted upon. *)
Lemma message_run_one_outcome : forall e seg lg,
  Spec.message_run e seg lg (Ret tt) ->
  Spec.n_failed lg + Spec.n_skipped lg + Spec.n_acted seg = 1.
Proof.
  intros e seg lg H.
  inversion H as [x Hs Hl Hr|p x Hs Hl Hr|p c Hg Hs Hl|p c b Hg Hs Hl
                 |p c x Hg Hs Hl Hr]; subst.
  - apply after_raise_returns in Hr. destruct Hr as [_ ->]. reflexivity.
  - apply after_raise_returns in Hr. destruct Hr as [_ ->]. reflexivity.
  - reflexivity.
  - reflexivity.
  - apply after_raise_returns in Hr. destruct Hr as [_ ->]. reflexivity.
Qed.

Lemma loop_run_outcomes : forall batch cs ls,
  Spec.loop_run batch cs ls (Ret tt) ->
  Spec.n_failed ls + Spec.n_skipped ls + Spec.n_acted cs = List.length batch.
Proof.
  intros batch cs ls H.
  remember (Ret tt : outcome unit) as r eqn:Hr.
  induction H as [|e es seg lg cs ls r Hm Hl IH|e es seg lg y Hm].
  - reflexivity.
  - specialize (IH Hr).
    pose proof (message_run_one_outcome Hm) as H1.
    rewrite n_failed_app, n_acted_app.
    rewrite (@n_skipped_app lg ls (loop_run_first_record Hl)).
    cbn. lia.
  - discriminate Hr.
Qed.

Section IsolationFacts.

Variable St : Type.
Variable self : Main.collaborators St.



End IsolationFacts.



(** The outcomes of that cycle: one failed, one skipped, one acted upon,
    and the single [ERROR] record is the one of the corrupt message. *)
Example cycle_outcomes_example :
  let w' := snd (Main.process_emails
                   (Fixture.fake (Ret [Fixture.car; Fixture.corrupt; Fixture.phone]))
                   Fixture.start) in
  Spec.n_failed (Main.log w') = 1 /\
  Spec.n_skipped (Main.log w') = 1 /\
  Spec.n_acted (Main.calls w') = 1 /\
  filter Logger.is_error (Main.log w')
  = [Logger.error_exc "Error processing email: could not tokenize"].
Proof. vm_compute. repeat split. Qed.



(** A fetch that fails with a [ConnectionError]: one critical record, no
    call but the fetch. *)
Example fetch_failure_example :
  Main.process_emails
    (Fixture.fake (Raise (mk_exn ConnectionError "network is unreachable")))
    Fixture.start
  = (Ret tt,
     {| Main.collab := 1;
        Main.log :=
          [Logger.info "Starting email processing cycle";
           Logger.error_exc
             "Critical error during email processing: network is unreachable"];
        Main.calls :=
          [Main.CallFetch "Giveaway" true
             (Raise (mk_exn ConnectionError "network is unreachable"))] |}).
Proof. vm_compute. reflexivity. Qed.


(** ** The e-mail source *)

Lemma HttpError_is_Exception : forall x,
  is_HttpError x = true -> is_Exception x = true.
Proof.
  intros [c m]. unfold is_HttpError, is_Exception. cbn.
  destruct c; intro H; try discriminate H; reflexivity.
Qed.

Section HandlerFacts.

Variable search : string -> Z -> list Gmail.message -> list string.
Variable faults : EmailHandler.request -> option exn.
Variable decode : string -> outcome string.

Local Abbreviation _parse_email := (EmailHandler._parse_email faults decode).
Local Abbreviation collect := (EmailHandler.collect faults decode).
Local Abbreviation fetch_emails :=
  (EmailHandler.fetch_emails search faults decode).

(** [_parse_email] sends one read request and leaves the mailbox as it
    is. *)
Lemma parse_email_state : forall id st,
  EmailHandler.mailbox (snd (_parse_email id st)) = EmailHandler.mailbox st /\
  EmailHandler.requests (snd (_parse_email id st))
  = (EmailHandler.requests st ++ [EmailHandler.GetMessage id])%list.
Proof.
  intros id st. run_parse faults decode id st; split; reflexivity.
Qed.

(** What it gives: the dictionary of the message when the request goes
    through and the body decodes; [None] after an [Exception]; and only
    what is no [Exception] leaves it. *)
Lemma parse_email_result : forall id st,
  match fst (_parse_email id st) with
  | Ret (Some e) =>
      faults (EmailHandler.GetMessage id) = None /\
      exists m body,
        EmailHandler.find_message id (EmailHandler.mailbox st) = Some m /\
        EmailHandler._get_email_body decode (Gmail.msg_payload m) = Ret body /\
        e = Spec.email_of id m body
  | Ret None => True
  | Raise x => is_Exception x = false
  end.
Proof.
  intros id st. run_parse faults decode id st; try exact I; try assumption.
  split; [reflexivity|]. eexists _, _. repeat split; eassumption.
Qed.

Lemma parse_email_success : forall id st m body,
  faults (EmailHandler.GetMessage id) = None ->
  EmailHandler.find_message id (EmailHandler.mailbox st) = Some m ->
  EmailHandler._get_email_body decode (Gmail.msg_payload m) = Ret body ->
  fst (_parse_email id st) = Ret (Some (Spec.email_of id m body)).
Proof.
  intros id st m0 body0 Hf Hm Hb.
  unfold EmailHandler._parse_email, try_except, bind, EmailHandler.execute,
    EmailHandler.reading, EmailHandler.answer_get, lift, ret.
  rewrite Hf, Hm. cbn. rewrite Hb. reflexivity.
Qed.

(** What it gives depends on the mailbox only. *)
Lemma parse_email_frame : forall id st st',
  EmailHandler.mailbox st = EmailHandler.mailbox st' ->
  fst (_parse_email id st) = fst (_parse_email id st').
Proof.
  intros id st st' E.
  unfold EmailHandler._parse_email, try_except, bind, EmailHandler.execute,
    EmailHandler.reading, EmailHandler.answer_get, lift, ret,
    EmailHandler.print.
  rewrite <- E.
  destruct (faults (EmailHandler.GetMessage id)) as [x|];
    [destruct (is_Exception x); reflexivity|].
  destruct (EmailHandler.find_message id (EmailHandler.mailbox st)) as [m|];
    cbn; [|reflexivity].
  destruct (EmailHandler._get_email_body decode (Gmail.msg_payload m))
    as [body|x]; cbn; [reflexivity|].
  destruct (is_Exception x); reflexivity.
Qed.

(** The loop of [fetch_emails] sends read requests only and leaves the
    mailbox as it is. *)
Lemma collect_state : forall ids acc st,
  EmailHandler.mailbox (snd (collect ids acc st)) = EmailHandler.mailbox st /\
  exists rs,
    EmailHandler.requests (snd (collect ids acc st))
    = (EmailHandler.requests st ++ rs)%list /\
    forallb Spec.is_read rs = true.
Proof.
  induction ids as [|id ids IH]; intros acc st.
  - cbn. split; [reflexivity|]. exists []. rewrite app_nil_r. split; reflexivity.
  - cbn [EmailHandler.collect]. unfold bind.
    destruct (parse_email_state id st) as [Hmb Hrq].
    destruct (_parse_email id st) as [[[e|]|x] st1]; cbn in Hmb, Hrq.
    + destruct (IH (acc ++ [e])%list st1) as (Hmb' & rs & Hrq' & Hrs).
      split; [congruence|].
      exists (EmailHandler.GetMessage id :: rs).
      rewrite Hrq', Hrq, <- app_assoc. split; [reflexivity|exact Hrs].
    + destruct (IH acc st1) as (Hmb' & rs & Hrq' & Hrs).
      split; [congruence|].
      exists (EmailHandler.GetMessage id :: rs).
      rewrite Hrq', Hrq, <- app_assoc. split; [reflexivity|exact Hrs].
    + cbn. split; [exact Hmb|].
      exists [EmailHandler.GetMessage id]. split; [exact Hrq|reflexivity].
Qed.

(** What the loop gives: the dictionaries of the listed messages that
    could be read, in the order of the listing; every message whose
    request goes through and whose body decodes is among them; and only
    what is no [Exception] leaves the loop. *)
Lemma collect_result : forall ids acc st,
  match fst (collect ids acc st) with
  | Ret emails =>
      exists new,
        emails = (acc ++ new)%list /\
        Spec.subseq (map em_id new) ids /\
        forall id m body,
          In id ids ->
          faults (EmailHandler.GetMessage id) = None ->
          EmailHandler.find_message id (EmailHandler.mailbox st) = Some m ->
          EmailHandler._get_email_body decode (Gmail.msg_payload m) = Ret body ->
          In (Spec.email_of id m body) new
  | Raise x => is_Exception x = false
  end.
Proof.
  induction ids as [|id ids IH]; intros acc st.
  - cbn. exists []. rewrite app_nil_r. repeat split; [constructor|].
    intros id m body [].
  - cbn [EmailHandler.collect]. unfold bind.
    pose proof (parse_email_result id st) as Hres.
    pose proof (@parse_email_success id st) as Hok.
    destruct (parse_email_state id st) as [Hmb _].
    destruct (_parse_email id st) as [[[e|]|x] st1]; cbn in Hres, Hok, Hmb.
    + destruct Hres as (Hf & m & body & Hm & Hb & ->).
      specialize (IH (acc ++ [Spec.email_of id m body])%list st1).
      destruct (fst (collect ids (acc ++ [Spec.email_of id m body]) st1))
        as [emails|x]; [|exact IH].
      destruct IH as (new & -> & Hsub & Hall).
      exists (Spec.email_of id m body :: new).
      rewrite <- app_assoc. split; [reflexivity|].
      split; [cbn; constructor; exact Hsub|].
      intros id0 m0 body0 [<- | Hin] Hf0 Hm0 Hb0.
      * left. rewrite Hm in Hm0. injection Hm0 as <-.
        rewrite Hb in Hb0. injection Hb0 as <-. reflexivity.
      * right. apply Hall; try assumption. rewrite Hmb. exact Hm0.
    + specialize (IH acc st1).
      destruct (fst (collect ids acc st1)) as [emails|x]; [|exact IH].
      destruct IH as (new & -> & Hsub & Hall).
      exists new. split; [reflexivity|].
      split; [constructor; exact Hsub|].
      intros id0 m0 body0 [<- | Hin] Hf0 Hm0 Hb0.
      * specialize (Hok m0 body0 Hf0 Hm0 Hb0). discriminate Hok.
      * apply Hall; try assumption. rewrite Hmb. exact Hm0.
    + exact Hres.
Qed.

(** What [_parse_email] returns, when it returns: the dictionary of a
    message that was retrieved and decoded, [None] for any other. *)
Lemma parse_email_exact : forall id st,
  match fst (_parse_email id st) with
  | Ret (Some e) =>
      View.retrieved faults decode (EmailHandler.mailbox st) id = [e]
  | Ret None =>
      View.retrieved faults decode (EmailHandler.mailbox st) id = []
  | Raise _ => True
  end.
Proof.
  intros id st. unfold View.retrieved, View.parsed.
  run_parse faults decode id st; try exact I; try reflexivity.
Qed.

(** The loop appends exactly the retrieved and decoded messages, in the
    order of the identifiers. *)
Lemma collect_exact : forall ids acc st,
  match fst (collect ids acc st) with
  | Ret emails =>
      emails
      = (acc ++ flat_map (View.retrieved faults decode (EmailHandler.mailbox st))
                         ids)%list
  | Raise _ => True
  end.
Proof.
  induction ids as [|id ids IH]; intros acc st.
  - cbn. rewrite app_nil_r. reflexivity.
  - cbn [EmailHandler.collect flat_map]. unfold bind.
    pose proof (parse_email_exact id st) as Hone.
    destruct (parse_email_state id st) as [Hmb _].
    destruct (_parse_email id st) as [[[e|]|x] st1]; cbn in Hone, Hmb.
    + specialize (IH (acc ++ [e])%list st1). rewrite Hmb in IH.
      destruct (fst (collect ids (acc ++ [e]) st1)) as [emails|x]; [|exact I].
      rewrite IH, Hone, <- app_assoc. reflexivity.
    + specialize (IH acc st1). rewrite Hmb in IH.
      destruct (fst (collect ids acc st1)) as [emails|x]; [|exact I].
      rewrite IH, Hone. reflexivity.
    + exact I.
Qed.

(** Every entry of the retrieved messages is the dictionary of a message
    whose request went through and whose body decoded. *)
Lemma retrieved_readable : forall mb ids e,
  In e (flat_map (View.retrieved faults decode mb) ids) ->
  In (em_id e) ids /\
  faults (EmailHandler.GetMessage (em_id e)) = None /\
  exists m body,
    EmailHandler.find_message (em_id e) mb = Some m /\
    EmailHandler._get_email_body decode (Gmail.msg_payload m) = Ret body /\
    e = Spec.email_of (em_id e) m body.
Proof.
  intros mb ids e Hin. apply in_flat_map in Hin.
  destruct Hin as (id & Hid & He).
  unfold View.retrieved, View.parsed in He.
  destruct (faults (EmailHandler.GetMessage id)) as [x|] eqn:Hf; [destruct He|].
  destruct (EmailHandler.find_message id mb) as [m|] eqn:Hm; [|destruct He].
  destruct (EmailHandler._get_email_body decode (Gmail.msg_payload m))
    as [body|x] eqn:Hb; [|destruct He].
  destruct He as [<- | []]. cbn [em_id Spec.email_of].
  split; [exact Hid|]. split; [exact Hf|].
  exists m, body. repeat split; assumption.
Qed.

(** What the loop gives depends on the mailbox only. *)
Lemma collect_frame : forall ids acc st st',
  EmailHandler.mailbox st = EmailHandler.mailbox st' ->
  fst (collect ids acc st) = fst (collect ids acc st').
Proof.
  induction ids as [|id ids IH]; intros acc st st' E.
  - reflexivity.
  - cbn [EmailHandler.collect]. unfold bind.
    pose proof (@parse_email_frame id st st' E) as Hfst.
    destruct (parse_email_state id st) as [Hmb _].
    destruct (parse_email_state id st') as [Hmb' _].
    destruct (_parse_email id st) as [[[e|]|x] st1];
      destruct (_parse_email id st') as [[[e'|]|x'] st1'];
      cbn in Hfst, Hmb, Hmb'; try discriminate Hfst.
    + injection Hfst as <-. apply IH. congruence.
    + apply IH. congruence.
    + cbn. injection Hfst as <-. reflexivity.
Qed.

(** [fetch_emails] sends read requests only and leaves the mailbox as it
    is. *)
Lemma fetch_emails_state : forall label unread_only max_results st,
  EmailHandler.mailbox (snd (fetch_emails label unread_only max_results st))
  = EmailHandler.mailbox st /\
  exists rs,
    EmailHandler.requests (snd (fetch_emails label unread_only max_results st))
    = (EmailHandler.requests st ++ rs)%list /\
    forallb Spec.is_read rs = true.
Proof.
  intros label unread_only n st.
  unfold EmailHandler.fetch_emails, try_except, bind, EmailHandler.execute,
    EmailHandler.reading, EmailHandler.answer_list, EmailHandler.print, ret.
  set (q := EmailHandler.query_of label unread_only).
  destruct (faults (EmailHandler.ListMessages q n)) as [x|].
  - destruct (is_HttpError x); cbn;
      (split; [reflexivity|]);
      exists [EmailHandler.ListMessages q n]; split; reflexivity.
  - match goal with
    | |- context [collect ?ids [] ?st0] =>
        destruct (collect_state ids [] st0) as (Hmb & rs & Hrq & Hrs);
        destruct (collect ids [] st0) as [[emails|x] st1]
    end; cbn in Hmb, Hrq.
    + cbn. split; [exact Hmb|].
      exists (EmailHandler.ListMessages q n :: rs).
      rewrite Hrq, <- app_assoc. split; [reflexivity|exact Hrs].
    + destruct (is_HttpError x); cbn; (split; [exact Hmb|]);
        exists (EmailHandler.ListMessages q n :: rs);
        rewrite Hrq, <- app_assoc; (split; [reflexivity|exact Hrs]).
Qed.

(** What [fetch_emails] gives depends on the mailbox only. *)
Lemma fetch_emails_frame : forall label unread_only max_results st st',
  EmailHandler.mailbox st = EmailHandler.mailbox st' ->
  fst (fetch_emails label unread_only max_results st)
  = fst (fetch_emails label unread_only max_results st').
Proof.
  intros label unread_only n st st' E.
  unfold EmailHandler.fetch_emails, try_except, bind, EmailHandler.execute,
    EmailHandler.reading, EmailHandler.answer_list, EmailHandler.print, ret.
  set (q := EmailHandler.query_of label unread_only).
  rewrite <- E.
  destruct (faults (EmailHandler.ListMessages q n)) as [x|].
  - destruct (is_HttpError x); reflexivity.
  - match goal with
    | |- context [collect ?ids [] ?st0] =>
        match goal with
        | |- context [collect ids [] ?st0'] =>
            lazymatch st0' with
            | st0 => fail
            | _ => pose proof (@collect_frame ids [] st0 st0' eq_refl) as Hfr;
                   destruct (collect ids [] st0) as [[emails|x] st1];
                   destruct (collect ids [] st0') as [[emails'|x'] st1']
            end
        end
    end; cbn in Hfr; try discriminate Hfr.
    + exact Hfr.
    + injection Hfr as <-. destruct (is_HttpError x); reflexivity.
Qed.

End HandlerFacts.

(** C5, as amended.  When the listing request fails, [fetch_emails] gives
    the empty list if the failure is an [HttpError] and raises it
    otherwise.  When the listing goes through, [fetch_emails] gives
    exactly the dictionaries of the listed messages that could be
    retrieved and decoded, in the order of the listing: every readable
    message is among them, every entry is one of them, so that a message
    whose retrieval or decoding failed is left out; and it raises nothing
    that is an [Exception]. *)
Theorem fetch_emails_failures :
  forall (search : string -> Z -> list Gmail.message -> list string)
         (faults : EmailHandler.request -> option exn)
         (decode : string -> outcome string)
         (label : string) (unread_only : bool) (max_results : Z)
         (st : EmailHandler.state),
  (forall x,
      faults (EmailHandler.ListMessages
                (EmailHandler.query_of label unread_only) max_results) = Some x ->
      fst (EmailHandler.fetch_emails search faults decode
             label unread_only max_results st)
      = if is_HttpError x then Ret [] else Raise x) /\
  (faults (EmailHandler.ListMessages
             (EmailHandler.query_of label unread_only) max_results) = None ->
   match fst (EmailHandler.fetch_emails search faults decode
                label unread_only max_results st) with
   | Ret emails =>
       emails
       = flat_map (View.retrieved faults decode (EmailHandler.mailbox st))
           (search (EmailHandler.query_of label unread_only) max_results
                   (EmailHandler.mailbox st)) /\
       Spec.subseq (map em_id emails)
         (search (EmailHandler.query_of label unread_only) max_results
                 (EmailHandler.mailbox st)) /\
       (forall id m body,
         In id (search (EmailHandler.query_of label unread_only) max_results
                       (EmailHandler.mailbox st)) ->
         faults (EmailHandler.GetMessage id) = None ->
         EmailHandler.find_message id (EmailHandler.mailbox st) = Some m ->
         EmailHandler._get_email_body decode (Gmail.msg_payload m) = Ret body ->
         In (Spec.email_of id m body) emails) /\
       (forall e,
         In e emails ->
         In (em_id e)
            (search (EmailHandler.query_of label unread_only) max_results
                    (EmailHandler.mailbox st)) /\
         faults (EmailHandler.GetMessage (em_id e)) = None /\
         exists m body,
           EmailHandler.find_message (em_id e) (EmailHandler.mailbox st) = Some m /\
           EmailHandler._get_email_body decode (Gmail.msg_payload m) = Ret body /\
           e = Spec.email_of (em_id e) m body)
   | Raise x => is_Exception x = false
   end).
Proof.
  intros search faults decode label unread_only n st.
  set (q := EmailHandler.query_of label unread_only).
  unfold EmailHandler.fetch_emails, try_except, bind, EmailHandler.execute,
    EmailHandler.reading, EmailHandler.answer_list, EmailHandler.print, ret.
  fold q. split.
  - intros x Hx. rewrite Hx. destruct (is_HttpError x); reflexivity.
  - intros Hlist. rewrite Hlist.
    match goal with
    | |- context [EmailHandler.collect faults decode ?ids [] ?st0] =>
        pose proof (collect_result faults decode ids [] st0) as Hres;
        pose proof (collect_exact faults decode ids [] st0) as Hex;
        destruct (EmailHandler.collect faults decode ids [] st0)
          as [[emails|x] st1]
    end; cbn in Hres, Hex.
    + cbn. destruct Hres as (new & -> & Hsub & Hall).
      split; [exact Hex|]. split; [exact Hsub|]. split; [exact Hall|].
      intros e He. cbn in Hex. rewrite Hex in He.
      exact (retrieved_readable faults decode _ _ e He).
    + destruct (is_HttpError x) eqn:Hh.
      * rewrite (HttpError_is_Exception x Hh) in Hres. discriminate Hres.
      * cbn. exact Hres.
Qed.

(** The three messages of the fixture's mailbox, fetched. *)
Example fetch_emails_example :
  fst (EmailHandler.fetch_emails Fixture.search Fixture.no_faults Fixture.decode
         "Giveaway" true 10%Z Fixture.inbox)
  = Ret [Fixture.car; Fixture.corrupt; Fixture.phone].
Proof. vm_compute. reflexivity. Qed.

(** A listing refused with an [HttpError]: the empty list, and one line
    printed. *)
Example fetch_emails_http_error :
  EmailHandler.fetch_emails Fixture.search Fixture.quota_exceeded Fixture.decode
    "Giveaway" true 10%Z Fixture.inbox
  = (Ret [],
     {| EmailHandler.mailbox := EmailHandler.mailbox Fixture.inbox;
        EmailHandler.requests :=
          [EmailHandler.ListMessages "label:Giveaway is:unread" 10%Z];
        EmailHandler.stdout := ["An error occurred: 429"] |}).
Proof. vm_compute. reflexivity. Qed.

(** C5, as stated, fails twice.  A listing that fails with something
    other than an [HttpError], here a [ConnectionError] from a network
    that is down, is raised to the caller.  And a failure while one
    message is retrieved does not empty the result: the other messages are
    returned. *)
Lemma fetch_emails_raises_connection_error :
  fst (EmailHandler.fetch_emails Fixture.search Fixture.network_down
         Fixture.decode "Giveaway" true 10%Z Fixture.inbox)
  = Raise (mk_exn ConnectionError "network is unreachable") /\
  fst (EmailHandler.fetch_emails Fixture.search Fixture.second_unavailable
         Fixture.decode "Giveaway" true 10%Z Fixture.inbox)
  = Ret [Fixture.car; Fixture.phone].
Proof. split; vm_compute; reflexivity. Qed.

(** ** What a cycle leaves alone *)

Section Preservation.

Variable St : Type.
Variable self : Main.collaborators St.

(** A relation between the collaborators' state before and after that
    each of the four methods used by [process_emails] respects. *)
Variable R : St -> St -> Prop.
Hypothesis R_refl : forall st, R st st.
Hypothesis R_trans : forall a b c, R a b -> R b c -> R a c.
Hypothesis R_fetch : forall label unread_only n st,
  R st (snd (Main.fetch_emails self label unread_only n st)).
Hypothesis R_predict : forall text st, R st (snd (Main.predict self text st)).
Hypothesis R_confidence : forall text st,
  R st (snd (Main.get_confidence_score self text st)).
Hypothesis R_participate : forall e st,
  R st (snd (Main.participate_in_giveaway self e st)).

Lemma process_one_respects : forall e (w : Main.world St),
  R (Main.collab w) (Main.collab (snd (Main.process_one self e w))).
Proof.
  intros e w. unfold Main.process_one, bind, Main.invoke.
  pose proof (R_predict (Main._extract_email_text e) (Main.collab w)) as H1.
  destruct (Main.predict self (Main._extract_email_text e) (Main.collab w))
    as [[p|x] s1]; cbn in *; [|exact H1].
  pose proof (R_confidence (Main._extract_email_text e) s1) as H2.
  destruct (Main.get_confidence_score self (Main._extract_email_text e) s1)
    as [[c|x] s2]; cbn in *; [|exact (R_trans H1 H2)].
  destruct (Main.gate p c); cbn; [|exact (R_trans H1 H2)].
  pose proof (R_participate e s2) as H3.
  destruct (Main.participate_in_giveaway self e s2) as [[b|x] s3]; cbn in *;
    exact (R_trans (R_trans H1 H2) H3).
Qed.

Lemma guarded_one_respects : forall e (w : Main.world St),
  R (Main.collab w) (Main.collab (snd (Main.guarded_one self e w))).
Proof.
  intros e w. unfold Main.guarded_one, try_except.
  pose proof (process_one_respects e w) as H.
  destruct (Main.process_one self e w) as [[u|x] w1]; cbn in *; [exact H|].
  destruct (is_Exception x); exact H.
Qed.

Lemma for_each_respects : forall batch (w : Main.world St),
  R (Main.collab w)
    (Main.collab (snd (for_each batch (Main.guarded_one self) w))).
Proof.
  induction batch as [|e es IH]; intro w.
  - apply R_refl.
  - cbn [for_each]. unfold bind.
    pose proof (guarded_one_respects e w) as H.
    destruct (Main.guarded_one self e w) as [[u|x] w1]; cbn in *; [|exact H].
    exact (R_trans H (IH w1)).
Qed.

Lemma process_emails_respects : forall w : Main.world St,
  R (Main.collab w) (Main.collab (snd (Main.process_emails self w))).
Proof.
  intro w.
  pose proof (R_fetch "Giveaway" true 10%Z (Main.collab w)) as Hf.
  destruct (Main.fetch_emails self "Giveaway" true 10%Z (Main.collab w))
    as [[batch|x] st1] eqn:E.
  - rewrite (process_emails_unfold self w E). cbn in Hf.
    match goal with
    | |- context [for_each batch (Main.guarded_one self) ?w0] =>
        pose proof (for_each_respects batch w0) as Hl;
        destruct (for_each batch (Main.guarded_one self) w0) as [[u|x] w1]
    end; cbn in Hl.
    + exact (R_trans Hf Hl).
    + destruct (is_Exception x); exact (R_trans Hf Hl).
  - unfold Main.process_emails, try_except, bind, Main.invoke.
    cbn. rewrite E. cbn. cbn in Hf. destruct (is_Exception x); exact Hf.
Qed.

End Preservation.

Lemma only_read_refl : forall g, Spec.only_read g g.
Proof.
  intro g. split; [reflexivity|]. exists []. rewrite app_nil_r.
  split; reflexivity.
Qed.

Lemma only_read_trans : forall a b c,
  Spec.only_read a b -> Spec.only_read b c -> Spec.only_read a c.
Proof.
  intros a b c (Hm & rs & Hr & Hrs) (Hm' & rs' & Hr' & Hrs').
  split; [congruence|]. exists (rs ++ rs')%list.
  rewrite Hr', Hr, <- app_assoc, forallb_app, Hrs, Hrs'.
  split; reflexivity.
Qed.

(** No turn and no loop calls [mark_as_read]. *)
Lemma message_run_no_mark_as_read : forall e seg lg r,
  Spec.message_run e seg lg r -> existsb Spec.is_mark_as_read seg = false.
Proof.
  intros e seg lg r H. destruct H; reflexivity.
Qed.

Lemma loop_run_no_mark_as_read : forall batch cs ls r,
  Spec.loop_run batch cs ls r -> existsb Spec.is_mark_as_read cs = false.
Proof.
  intros batch cs ls r H.
  induction H as [|e es seg lg cs ls r Hm Hl IH|e es seg lg y Hm].
  - reflexivity.
  - rewrite existsb_app, IH, (message_run_no_mark_as_read Hm). reflexivity.
  - exact (message_run_no_mark_as_read Hm).
Qed.

Lemma process_emails_no_mark_as_read :
  forall (St : Type) (self : Main.collaborators St) (w : Main.world St),
  exists cs,
    Main.calls (snd (Main.process_emails self w)) = (Main.calls w ++ cs)%list /\
    existsb Spec.is_mark_as_read cs = false.
Proof.
  intros St self w.
  destruct (Main.fetch_emails self "Giveaway" true 10%Z (Main.collab w))
    as [[batch|x] st1] eqn:E.
  - destruct (process_emails_fetched self w E) as (cs & ls & Hloop & Hc & _).
    exists (Main.CallFetch "Giveaway" true (Ret batch) :: cs).
    split; [exact Hc|]. cbn. exact (loop_run_no_mark_as_read Hloop).
  - exists [Main.CallFetch "Giveaway" true (Raise x)].
    split; [|reflexivity].
    unfold Main.process_emails, try_except, bind, Main.invoke.
    cbn. rewrite E. cbn. destruct (is_Exception x); reflexivity.
Qed.

(** ** The whole system *)

Section SystemFacts.

Variable search : string -> Z -> list Gmail.message -> list string.
Variable faults : EmailHandler.request -> option exn.
Variable decode : string -> outcome string.

Variable ndarray : Type.
Variable str_lower : string -> string.
Variable pad_sequences : list (list Z) -> Z -> outcome ndarray.

Variable browser : Type.
Variable element : Type.
Variable driver_get : string -> M browser unit.
Variable find_elements : string -> M browser (list element).
Variable send_keys : element -> string -> M browser unit.
Variable click : element -> M browser unit.

Local Abbreviation system := (System.t ndarray).
Local Abbreviation state := (System.state browser).
Local Abbreviation ports :=
  (System.collaborators_of search faults decode str_lower pad_sequences
     driver_get find_elements send_keys click).
Local Abbreviation cycle :=
  (System.process_emails search faults decode str_lower pad_sequences
     driver_get find_elements send_keys click).
Local Abbreviation run_cycles :=
  (System.run_cycles search faults decode str_lower pad_sequences
     driver_get find_elements send_keys click).

(** What [get_confidence_score] gives does not depend on what was printed
    before. *)
Lemma confidence_result_pure : forall (p : ModelPredictor.t ndarray) text out out',
  fst (ModelPredictor.get_confidence_score str_lower pad_sequences p text out)
  = fst (ModelPredictor.get_confidence_score str_lower pad_sequences p text out').
Proof.
  intros p text out out'. unfold ModelPredictor.get_confidence_score.
  destruct (negb (ModelPredictor.loaded p)); [reflexivity|].
  unfold try_except, bind.
  destruct (preprocess_text_pure str_lower pad_sequences p text out out')
    as [_ E].
  destruct (ModelPredictor.preprocess_text str_lower pad_sequences p text out)
    as [[[x|]|e] s1];
    destruct (ModelPredictor.preprocess_text str_lower pad_sequences p text out')
      as [[[x'|]|e'] s1'];
    simpl in E; try discriminate E; try reflexivity.
  - injection E as ->.
    unfold ModelPredictor.run_model, lift, raise, ret.
    destruct (ModelPredictor.model p) as [m|]; simpl; [|reflexivity].
    destruct (ModelPredictor.model_predict m x') as [rows|e]; simpl.
    + destruct (ModelPredictor.first_score rows) as [c|e]; simpl;
        [reflexivity|].
      destruct (is_Exception e); reflexivity.
    + destruct (is_Exception e); reflexivity.
  - injection E as ->. destruct (is_Exception e'); reflexivity.
Qed.

(** Each of the four methods that a cycle calls only reads the mail
    service. *)
Lemma ports_only_read : forall (self : system),
  (forall label unread_only n (st : state),
      Spec.only_read (System.gmail st)
        (System.gmail (snd (Main.fetch_emails (ports self) label unread_only n st)))) /\
  (forall text (st : state),
      Spec.only_read (System.gmail st)
        (System.gmail (snd (Main.predict (ports self) text st)))) /\
  (forall text (st : state),
      Spec.only_read (System.gmail st)
        (System.gmail (snd (Main.get_confidence_score (ports self) text st)))) /\
  (forall e (st : state),
      Spec.only_read (System.gmail st)
        (System.gmail (snd (Main.participate_in_giveaway (ports self) e st)))).
Proof.
  intro self. repeat split.
  - cbn. unfold System.on_gmail.
    destruct (fetch_emails_state search faults decode label unread_only n
                (System.gmail st)) as [Hmb _].
    destruct (EmailHandler.fetch_emails search faults decode label
                unread_only n (System.gmail st)); exact Hmb.
  - cbn. unfold System.on_gmail.
    destruct (fetch_emails_state search faults decode label unread_only n
                (System.gmail st)) as [_ Hrq].
    destruct (EmailHandler.fetch_emails search faults decode label
                unread_only n (System.gmail st)); exact Hrq.
  - cbn. unfold System.on_console.
    destruct (ModelPredictor.predict str_lower pad_sequences
                (System.model_predictor self) text (System.console st)).
    apply only_read_refl.
  - cbn. unfold System.on_console.
    destruct (ModelPredictor.predict str_lower pad_sequences
                (System.model_predictor self) text (System.console st)).
    apply only_read_refl.
  - cbn. unfold System.on_console.
    destruct (ModelPredictor.get_confidence_score str_lower pad_sequences
                (System.model_predictor self) text (System.console st)).
    apply only_read_refl.
  - cbn. unfold System.on_console.
    destruct (ModelPredictor.get_confidence_score str_lower pad_sequences
                (System.model_predictor self) text (System.console st)).
    apply only_read_refl.
  - cbn. unfold System.on_web.
    destruct (AutomationEngine.participate_in_giveaway driver_get find_elements
                send_keys click (System.automation_engine self) e (System.web st)).
    apply only_read_refl.
  - cbn. unfold System.on_web.
    destruct (AutomationEngine.participate_in_giveaway driver_get find_elements
                send_keys click (System.automation_engine self) e (System.web st)).
    apply only_read_refl.
Qed.

(** One cycle only reads the mail service. *)
Lemma cycle_only_reads : forall (self : system) (w : Main.world state),
  Spec.only_read (System.gmail (Main.collab w))
    (System.gmail (Main.collab (snd (cycle self w)))).
Proof.
  intros self w.
  destruct (ports_only_read self) as (Hf & Hp & Hc & Ha).
  apply (@process_emails_respects state (ports self)
           (fun st st' => Spec.only_read (System.gmail st) (System.gmail st'))).
  - intro st. apply only_read_refl.
  - intros a b c. apply only_read_trans.
  - exact Hf.
  - exact Hp.
  - exact Hc.
  - exact Ha.
Qed.

Lemma cycles_only_read : forall (self : system) n (w : Main.world state),
  Spec.only_read (System.gmail (Main.collab w))
    (System.gmail (Main.collab (run_cycles self n w))).
Proof.
  intros self n. induction n as [|n IH]; intro w.
  - apply only_read_refl.
  - cbn [System.run_cycles].
    exact (only_read_trans (cycle_only_reads self w) (IH _)).
Qed.

Lemma cycles_no_mark_as_read : forall (self : system) n (w : Main.world state),
  exists cs,
    Main.calls (run_cycles self n w) = (Main.calls w ++ cs)%list /\
    existsb Spec.is_mark_as_read cs = false.
Proof.
  intros self n. induction n as [|n IH]; intro w.
  - exists []. rewrite app_nil_r. split; reflexivity.
  - cbn [System.run_cycles].
    destruct (process_emails_no_mark_as_read (ports self) w)
      as (cs & Hc & Hcs).
    destruct (IH (snd (cycle self w))) as (cs' & Hc' & Hcs').
    exists (cs ++ cs')%list. unfold System.process_emails in *.
    rewrite Hc', Hc, <- app_assoc, existsb_app, Hcs, Hcs'.
    split; reflexivity.
Qed.

(** C9.  However many cycles are run, none of them calls [mark_as_read]
    and none sends a request that changes a message: the mailbox, with all
    its [UNREAD] labels, is as it was.  The next fetch therefore gives
    what the first one gave, and the classifier says of every text what it
    said before. *)
Theorem cycles_leave_messages_unread :
  forall (self : system) (n : nat) (w : Main.world state),
  let w' := run_cycles self n w in
  Spec.only_read (System.gmail (Main.collab w)) (System.gmail (Main.collab w')) /\
  (forall m,
      In m (EmailHandler.mailbox (System.gmail (Main.collab w))) ->
      Spec.unread m = true ->
      In m (EmailHandler.mailbox (System.gmail (Main.collab w')))) /\
  (exists cs,
      Main.calls w' = (Main.calls w ++ cs)%list /\
      existsb Spec.is_mark_as_read cs = false) /\
  fst (Main.fetch_emails (ports self) "Giveaway" true 10%Z (Main.collab w'))
  = fst (Main.fetch_emails (ports self) "Giveaway" true 10%Z (Main.collab w)) /\
  (forall text,
      fst (Main.predict (ports self) text (Main.collab w'))
      = fst (Main.predict (ports self) text (Main.collab w)) /\
      fst (Main.get_confidence_score (ports self) text (Main.collab w'))
      = fst (Main.get_confidence_score (ports self) text (Main.collab w))).
Proof.
  intros self n w w'.
  pose proof (cycles_only_read self n w) as Hread.
  fold w' in Hread. destruct Hread as [Hmb Hrq].
  split; [split; assumption|].
  split; [intros m Hin _; rewrite Hmb; exact Hin|].
  split; [exact (cycles_no_mark_as_read self n w)|].
  split.
  - cbn. unfold System.on_gmail.
    pose proof (@fetch_emails_frame search faults decode "Giveaway" true 10%Z
                  (System.gmail (Main.collab w'))
                  (System.gmail (Main.collab w)) Hmb) as Hfr.
    destruct (EmailHandler.fetch_emails search faults decode "Giveaway" true
                10%Z (System.gmail (Main.collab w')));
      destruct (EmailHandler.fetch_emails search faults decode "Giveaway" true
                  10%Z (System.gmail (Main.collab w)));
      exact Hfr.
  - intro text. split; cbn; unfold System.on_console.
    + pose proof (predict_result_pure str_lower pad_sequences
                    (System.model_predictor self) text
                    (System.console (Main.collab w'))
                    (System.console (Main.collab w))) as Hp.
      destruct (ModelPredictor.predict str_lower pad_sequences
                  (System.model_predictor self) text
                  (System.console (Main.collab w')));
        destruct (ModelPredictor.predict str_lower pad_sequences
                    (System.model_predictor self) text
                    (System.console (Main.collab w)));
        exact Hp.
    + pose proof (confidence_result_pure (System.model_predictor self) text
                    (System.console (Main.collab w'))
                    (System.console (Main.collab w))) as Hp.
      destruct (ModelPredictor.get_confidence_score str_lower pad_sequences
                  (System.model_predictor self) text
                  (System.console (Main.collab w')));
        destruct (ModelPredictor.get_confidence_score str_lower pad_sequences
                    (System.model_predictor self) text
                    (System.console (Main.collab w)));
        exact Hp.
Qed.

End SystemFacts.

(** On the fixture, the second cycle fetches the three messages again and
    acts on them again: it makes the calls of the first cycle once more,
    and the browser is sent to the two links a second time. *)
Example second_cycle_repeats_the_first :
  let w1 := Fixture.cycle Fixture.world0 in
  let w2 := Fixture.cycle w1 in
  Main.calls w2 = (Main.calls w1 ++ Main.calls w1)%list /\
  filter Spec.is_participate (Main.calls w1)
  = [Main.CallParticipate Fixture.car (Ret true);
     Main.CallParticipate Fixture.corrupt (Ret false);
     Main.CallParticipate Fixture.phone (Ret true)] /\
  filter (Logger.contains "GET")
         (AutomationEngine.session (System.web (Main.collab w2)))
  = ["GET http://example.com/win"; "GET https://example.org/phone";
     "GET http://example.com/win"; "GET https://example.org/phone"].
Proof. vm_compute. repeat split. Qed.

(** [mark_as_read], which no cycle calls, is what would take a message
    out of the next fetch. *)
Example mark_as_read_hides_the_message :
  let g := snd (EmailHandler.mark_as_read Fixture.no_faults "18c2f0a1"
                  Fixture.inbox) in
  fst (EmailHandler.fetch_emails Fixture.search Fixture.no_faults
         Fixture.decode "Giveaway" true 10%Z g)
  = Ret [ {| em_id := "18c2f0a2";
             em_subject := "corrupt";
             em_from := "promo@example.com";
             em_body := "no text";
             em_raw := em_raw Fixture.corrupt |};
          {| em_id := "18c2f0a3";
             em_subject := "Win a phone";
             em_from := "shop@example.org";
             em_body := "Enter at https://example.org/phone today";
             em_raw := em_raw Fixture.phone |} ].
Proof. vm_compute. reflexivity. Qed.

(* ================================================================== *)
(** * Further properties of the modules *)
(* ================================================================== *)

(** ** model_predictor.py *)

Section PredictorMore.

Variable ndarray : Type.
Variable str_lower : string -> string.
Variable pad_sequences : list (list Z) -> Z -> outcome ndarray.

Local Abbreviation predictor := (ModelPredictor.t ndarray).
Local Abbreviation predict := (ModelPredictor.predict str_lower pad_sequences).
Local Abbreviation get_confidence_score :=
  (ModelPredictor.get_confidence_score str_lower pad_sequences).
Local Abbreviation predict_batch :=
  (ModelPredictor.predict_batch str_lower pad_sequences).
Local Abbreviation preprocess_text :=
  (ModelPredictor.preprocess_text str_lower pad_sequences).

(** X27.  [get_confidence_score] passes the raw score on as it is.  With
    model and tokenizer loaded and an inference that goes through, it
    returns the first entry of the first row of what [model.predict]
    gave, whatever that number is, and prints nothing. *)
Theorem confidence_is_raw_score :
  forall (p : predictor) m tk n text seqs padded score row rows out,
  ModelPredictor.model p = Some m ->
  ModelPredictor.tokenizer p = Some tk ->
  ModelPredictor.max_length p = Some n ->
  ModelPredictor.texts_to_sequences tk [str_lower text] = Ret seqs ->
  pad_sequences seqs n = Ret padded ->
  ModelPredictor.model_predict m padded = Ret ((score :: row) :: rows) ->
  get_confidence_score p text out = (Ret score, out).
Proof.
  intros p m tk n text seqs padded score row rows out Hm Htk Hn Hseq Hpad Hrun.
  unfold ModelPredictor.get_confidence_score, ModelPredictor.loaded.
  rewrite Hm, Htk. simpl.
  unfold try_except, bind, ModelPredictor.preprocess_text.
  rewrite Htk, Hn. unfold bind, lift, ret. rewrite Hseq, Hpad.
  unfold ModelPredictor.run_model. rewrite Hm. unfold lift.
  rewrite Hrun. reflexivity.
Qed.

(** X2.  Both methods fail closed.  Whatever the tokenizer, the padding
    and the model do, neither method raises an [Exception]; each prints
    at most one line, and whenever one prints, it answers [False],
    respectively [0.0]. *)
Theorem classifier_fails_closed :
  forall (p : predictor) text out,
  match predict p text out with
  | (Ret b, out') =>
      out' = out \/ (b = false /\ exists line, out' = (out ++ [line])%list)
  | (Raise x, out') => is_Exception x = false /\ out' = out
  end /\
  match get_confidence_score p text out with
  | (Ret c, out') =>
      out' = out \/ (c = 0%float /\ exists line, out' = (out ++ [line])%list)
  | (Raise x, out') => is_Exception x = false /\ out' = out
  end.
Proof.
  intros p text out.
  unfold ModelPredictor.predict, ModelPredictor.get_confidence_score.
  destruct (negb (ModelPredictor.loaded p)).
  { split; [right; split; [reflexivity|eexists; reflexivity]|left; reflexivity]. }
  unfold try_except, bind.
  destruct (preprocess_text_pure str_lower pad_sequences p text out out)
    as [Hout _].
  destruct (preprocess_text p text out) as [[[x|]|e] s1]; simpl in Hout;
    subst s1.
  - unfold ModelPredictor.run_model, lift, raise, ret, ModelPredictor.print.
    destruct (ModelPredictor.model p) as [m|]; simpl.
    + destruct (ModelPredictor.model_predict m x) as [rows|e]; simpl.
      * destruct (ModelPredictor.first_score rows) as [c|e]; simpl.
        -- split; left; reflexivity.
        -- destruct (is_Exception e) eqn:He; simpl; split;
             first [ right; split; [reflexivity|eexists; reflexivity]
                   | split; [exact He|reflexivity] ].
      * destruct (is_Exception e) eqn:He; simpl; split;
          first [ right; split; [reflexivity|eexists; reflexivity]
                | split; [exact He|reflexivity] ].
    + split; right; (split; [reflexivity|eexists; reflexivity]).
  - split; left; reflexivity.
  - unfold ModelPredictor.print, ret.
    destruct (is_Exception e) eqn:He; simpl; split;
      first [ right; split; [reflexivity|eexists; reflexivity]
            | split; [exact He|reflexivity] ].
Qed.

(** X3.  [__init__] never raises an [Exception].  It gives a predictor
    with both attributes set, [max_length] 100 and nothing printed when
    both loads go through; when either raises an [Exception] it prints one
    line and leaves both attributes [None], also the model when only the
    tokenizer failed. *)
Theorem predictor_init_cases :
  forall (load_model : outcome (ModelPredictor.Model ndarray)) load_tokenizer out,
  match ModelPredictor.init load_model load_tokenizer out with
  | (Ret p, out') =>
      match load_model, load_tokenizer with
      | Ret m, Ret tk =>
          p = {| ModelPredictor.model := Some m;
                 ModelPredictor.tokenizer := Some tk;
                 ModelPredictor.max_length := Some 100%Z |} /\
          out' = out
      | _, _ =>
          p = {| ModelPredictor.model := None;
                 ModelPredictor.tokenizer := None;
                 ModelPredictor.max_length := None |} /\
          exists line, out' = (out ++ [line])%list
      end
  | (Raise x, out') =>
      is_Exception x = false /\ out' = out /\
      (load_model = Raise x \/ load_tokenizer = Raise x)
  end.
Proof.
  intros lm lt out.
  unfold ModelPredictor.init, try_except, bind, lift, ret, ModelPredictor.print.
  destruct lm as [m|e].
  - destruct lt as [tk|e].
    + split; reflexivity.
    + destruct (is_Exception e) eqn:He; simpl.
      * split; [reflexivity|eexists; reflexivity].
      * repeat split; [exact He|right; reflexivity].
  - destruct (is_Exception e) eqn:He; simpl.
    + destruct lt; (split; [reflexivity|eexists; reflexivity]).
    + repeat split; [exact He|left; reflexivity].
Qed.

Lemma predict_batch_unloaded_from : forall (p : predictor) texts acc out,
  ModelPredictor.loaded p = false ->
  comprehension (predict p) texts acc out
  = (Ret (acc ++ repeat false (List.length texts))%list,
     (out ++ repeat "Model not loaded" (List.length texts))%list).
Proof.
  intros p texts. induction texts as [|t ts IH]; intros acc out H.
  - cbn. rewrite !app_nil_r. reflexivity.
  - cbn [comprehension]. unfold bind.
    rewrite (predict_unloaded str_lower pad_sequences p t out H).
    rewrite (IH _ _ H). cbn. rewrite <- !app_assoc. reflexivity.
Qed.

(** X4.  Without a loaded model [predict_batch] answers [False] for every
    text, as many times as there are texts, and prints one line for each
    of them. *)
Theorem predict_batch_unloaded : forall (p : predictor) texts out,
  ModelPredictor.loaded p = false ->
  predict_batch p texts out
  = (Ret (repeat false (List.length texts)),
     (out ++ repeat "Model not loaded" (List.length texts))%list).
Proof.
  intros p texts out H. unfold ModelPredictor.predict_batch.
  rewrite (predict_batch_unloaded_from p texts [] out H). reflexivity.
Qed.

(** X5.  [preprocess_text] gives [None] exactly when there is no
    tokenizer; with a tokenizer it gives an array or raises.  It prints
    nothing. *)
Theorem preprocess_text_none_iff : forall (p : predictor) text out,
  (fst (preprocess_text p text out) = Ret None <->
   ModelPredictor.tokenizer p = None) /\
  snd (preprocess_text p text out) = out.
Proof.
  intros p text out.
  split; [|exact (proj1 (preprocess_text_pure str_lower pad_sequences
                           p text out out))].
  unfold ModelPredictor.preprocess_text.
  destruct (ModelPredictor.tokenizer p) as [tk|]; [|split; reflexivity].
  unfold bind, lift, ret.
  destruct (ModelPredictor.texts_to_sequences tk [str_lower text]);
    [|split; discriminate].
  destruct (ModelPredictor.max_length p); [|split; discriminate].
  destruct (pad_sequences a z); split; discriminate.
Qed.

End PredictorMore.

Lemma confidence_is_raw_score_witness :
  ModelPredictor.get_confidence_score Fixture.str_lower Fixture.pad_sequences
    (Fixture.predictor_of Fixture.two_by_two) "Win a Car" []
  = (Ret 0.5%float, []).
Proof.
  eapply (@confidence_is_raw_score (list (list Z)) Fixture.str_lower
            Fixture.pad_sequences (Fixture.predictor_of Fixture.two_by_two)
            (Fixture.table_model Fixture.two_by_two) Fixture.tokenizer 100%Z
            "Win a Car" _ _ 0.5%float [0.9%float] [[0.7%float; 0.8%float]]).
  - reflexivity.
  - reflexivity.
  - reflexivity.
  - reflexivity.
  - reflexivity.
  - reflexivity.
Defined.

Lemma predict_batch_unloaded_witness :
  ModelPredictor.predict_batch Fixture.str_lower Fixture.pad_sequences
    {| ModelPredictor.model := None;
       ModelPredictor.tokenizer := None;
       ModelPredictor.max_length := None |}
    ["email1"; "email2"; "email3"] []
  = (Ret (repeat false (List.length ["email1"; "email2"; "email3"])),
     ([] ++ repeat "Model not loaded"
              (List.length ["email1"; "email2"; "email3"]))%list).
Proof.
  apply (@predict_batch_unloaded (list (list Z)) Fixture.str_lower
           Fixture.pad_sequences).
  reflexivity.
Defined.

(** ** automation_engine.py *)

(** What [try: ... except Exception] lets out is no [Exception], when the
    handler itself lets none out. *)
Lemma try_except_lets_no_Exception_out :
  forall (S A : Type) (body : M S A) (handler : exn -> M S A),
  (forall e s x, fst (handler e s) = Raise x -> is_Exception x = false) ->
  forall s x,
    fst (try_except body is_Exception handler s) = Raise x ->
    is_Exception x = false.
Proof.
  intros S A body handler Hh s x. unfold try_except.
  destruct (body s) as [[a|e] s1]; cbn; [discriminate|].
  destruct (is_Exception e) eqn:He.
  - apply Hh.
  - cbn. intro H. injection H as <-. exact He.
Qed.

(** No URL-shaped text anywhere in the body: [_extract_link] gives
    [None], and the other way round. *)
Lemma extract_link_none_iff : forall body,
  AutomationEngine._extract_link body = None <->
  (forall pre v post, body = pre ++ v ++ post -> ~ Spec.url_shaped v).
Proof.
  intro body. unfold AutomationEngine._extract_link, AutomationEngine.findall.
  pose proof (findall_head body) as H.
  destruct (AutomationEngine.findall_from 0 body) as [|u us].
  - split; [|reflexivity]. intros _ pre v post E.
    exact (@match_here_none (v ++ post) v post (H pre (v ++ post) E) eq_refl).
  - split; [discriminate|]. intro Hnone. exfalso.
    destruct H as (pre & post & E & Hu & _).
    destruct (@match_here_some _ _ Hu) as (Hshape & _).
    exact (Hnone pre u post E Hshape).
Qed.

Section EngineMore.

Variable browser : Type.
Variable element : Type.
Variable driver_get : string -> M browser unit.
Variable find_elements : string -> M browser (list element).
Variable send_keys : element -> string -> M browser unit.
Variable click : element -> M browser unit.

Local Abbreviation participate_in_giveaway :=
  (AutomationEngine.participate_in_giveaway
     driver_get find_elements send_keys click).
Local Abbreviation _fill_form :=
  (AutomationEngine._fill_form (browser := browser) find_elements send_keys).
Local Abbreviation _submit_form :=
  (AutomationEngine._submit_form (browser := browser) find_elements click).




(** X7.  When the body holds no URL-shaped text,
    [participate_in_giveaway] with a driver logs that no link was found
    and answers [False]; the browser session is left as it was. *)
Theorem participate_without_link :
  forall (eng : AutomationEngine.t) e (st : AutomationEngine.state browser),
  AutomationEngine.driver eng = true ->
  (forall pre v post, em_body e = pre ++ v ++ post -> ~ Spec.url_shaped v) ->
  participate_in_giveaway eng e st
  = (Ret false,
     {| AutomationEngine.session := AutomationEngine.session st;
        AutomationEngine.elog :=
          (AutomationEngine.elog st
             ++ [Logger.warning "No giveaway link found"])%list |}).
Proof.
  intros eng e st Hd Hnone.
  apply extract_link_none_iff in Hnone.
  unfold AutomationEngine.participate_in_giveaway. rewrite Hd, Hnone.
  reflexivity.
Qed.


End EngineMore.

Lemma participate_without_link_witness :
  AutomationEngine.participate_in_giveaway
    Fixture.driver_get Fixture.find_elements Fixture.send_keys Fixture.click
    (System.automation_engine Fixture.system) Fixture.corrupt Fixture.no_session
  = (Ret false,
     {| AutomationEngine.session := AutomationEngine.session Fixture.no_session;
        AutomationEngine.elog :=
          (AutomationEngine.elog Fixture.no_session
             ++ [Logger.warning "No giveaway link found"])%list |}).
Proof.
  apply (@participate_without_link Fixture.browser nat
           Fixture.driver_get Fixture.find_elements Fixture.send_keys
           Fixture.click).
  - reflexivity.
  - apply extract_link_none_iff. reflexivity.
Defined.

(** On the fixture's browser: the car's first link is opened, the sender's
    address and the placeholder name are typed, and the form is sent. *)
Example participate_example :
  AutomationEngine.participate_in_giveaway
    Fixture.driver_get Fixture.find_elements Fixture.send_keys Fixture.click
    (System.automation_engine Fixture.system) Fixture.car Fixture.no_session
  = (Ret true,
     {| AutomationEngine.session :=
          ["GET http://example.com/win"; "KEYS promo@example.com";
           "KEYS Participant"; "CLICK"];
        AutomationEngine.elog :=
          [Logger.info "Navigating to giveaway: http://example.com/win";
           Logger.info "Email field filled";
           Logger.info "Name field filled";
           Logger.info "Form submitted";
           Logger.info "Successfully participated in giveaway"] |}).
Proof. vm_compute. reflexivity. Qed.

(** ** email_handler.py *)

Section HandlerMore.

Variable search : string -> Z -> list Gmail.message -> list string.
Variable faults : EmailHandler.request -> option exn.
Variable decode : string -> outcome string.

Local Abbreviation _parse_email := (EmailHandler._parse_email faults decode).
Local Abbreviation collect := (EmailHandler.collect faults decode).
Local Abbreviation fetch_emails :=
  (EmailHandler.fetch_emails search faults decode).
Local Abbreviation mark_as_read := (EmailHandler.mark_as_read faults).

(** A loop that comes to its end has asked for every listed message,
    once and in order. *)
Lemma collect_requests : forall ids acc st emails,
  fst (collect ids acc st) = Ret emails ->
  EmailHandler.requests (snd (collect ids acc st))
  = (EmailHandler.requests st ++ map EmailHandler.GetMessage ids)%list.
Proof.
  induction ids as [|id ids IH]; intros acc st emails H.
  - cbn. rewrite app_nil_r. reflexivity.
  - revert H. cbn [EmailHandler.collect]. unfold bind.
    destruct (parse_email_state faults decode id st) as [_ Hrq].
    destruct (_parse_email id st) as [[[e|]|x] st1]; cbn in Hrq; intro H.
    + rewrite (IH _ _ _ H), Hrq, <- app_assoc. reflexivity.
    + rewrite (IH _ _ _ H), Hrq, <- app_assoc. reflexivity.
    + discriminate H.
Qed.

(** X9.  A [fetch_emails] that returns has sent one listing request with
    the query built from its arguments and then, when the listing went
    through, one retrieval per listed message, in the order of the
    listing, whether or not the retrieval worked.  Nothing is asked
    twice. *)
Theorem fetch_emails_requests :
  forall label unread_only max_results st emails,
  fst (fetch_emails label unread_only max_results st) = Ret emails ->
  EmailHandler.requests (snd (fetch_emails label unread_only max_results st))
  = (EmailHandler.requests st
       ++ EmailHandler.ListMessages
            (EmailHandler.query_of label unread_only) max_results
          :: match faults (EmailHandler.ListMessages
                             (EmailHandler.query_of label unread_only)
                             max_results) with
             | Some _ => []
             | None =>
                 map EmailHandler.GetMessage
                   (search (EmailHandler.query_of label unread_only)
                      max_results (EmailHandler.mailbox st))
             end)%list.
Proof.
  intros label unread_only n st emails.
  set (q := EmailHandler.query_of label unread_only).
  unfold EmailHandler.fetch_emails, try_except, bind, EmailHandler.execute,
    EmailHandler.reading, EmailHandler.answer_list, EmailHandler.print, ret.
  fold q.
  destruct (faults (EmailHandler.ListMessages q n)) as [x|].
  - destruct (is_HttpError x); cbn; [intros _; reflexivity|discriminate].
  - match goal with
    | |- context [EmailHandler.collect faults decode ?ids [] ?st0] =>
        pose proof (@collect_requests ids [] st0) as Hrq;
        pose proof (collect_result faults decode ids [] st0) as Hres;
        destruct (EmailHandler.collect faults decode ids [] st0)
          as [[es|x] st1]
    end; cbn in Hrq, Hres.
    + cbn. intros _. rewrite (Hrq es eq_refl), <- app_assoc. reflexivity.
    + destruct (is_HttpError x) eqn:Hh; cbn; [|discriminate].
      rewrite (HttpError_is_Exception x Hh) in Hres. discriminate Hres.
Qed.

(** [_get_email_body] raises only what [decode] raises. *)
Lemma get_email_body_raise : forall payload x,
  EmailHandler._get_email_body decode payload = Raise x ->
  exists data, decode data = Raise x.
Proof.
  intros payload x. unfold EmailHandler._get_email_body.
  destruct (Gmail.parts payload) as [ps|].
  - induction ps as [|p ps IH]; cbn; [discriminate|].
    destruct (String.eqb (Gmail.mimeType p) "text/plain"
              && negb (String.eqb (Gmail.part_data p) "")).
    + intro H. exists (Gmail.part_data p). exact H.
    + exact IH.
  - destruct (negb (String.eqb (Gmail.body_data payload) ""));
      [|discriminate].
    intro H. exists (Gmail.body_data payload). exact H.
Qed.

Lemma parse_email_without_failures : forall id st,
  faults (EmailHandler.GetMessage id) = None ->
  (forall data x, decode data = Raise x -> is_Exception x = true) ->
  match fst (_parse_email id st) with
  | Ret (Some e) => View.parsed decode (EmailHandler.mailbox st) id = [e]
  | Ret None => View.parsed decode (EmailHandler.mailbox st) id = []
  | Raise _ => False
  end.
Proof.
  intros id st Hf Hd.
  unfold EmailHandler._parse_email, try_except, bind, EmailHandler.execute,
    EmailHandler.reading, EmailHandler.answer_get, lift, ret,
    EmailHandler.print, View.parsed.
  rewrite Hf.
  destruct (EmailHandler.find_message id (EmailHandler.mailbox st)) as [m|];
    cbn; [|reflexivity].
  destruct (EmailHandler._get_email_body decode (Gmail.msg_payload m))
    as [body|x] eqn:Hb; cbn; [reflexivity|].
  destruct (@get_email_body_raise _ _ Hb) as (data & Hdata).
  rewrite (Hd data x Hdata). reflexivity.
Qed.

Lemma collect_without_failures : forall ids acc st,
  (forall id, faults (EmailHandler.GetMessage id) = None) ->
  (forall data x, decode data = Raise x -> is_Exception x = true) ->
  fst (collect ids acc st)
  = Ret (acc ++ flat_map (View.parsed decode (EmailHandler.mailbox st)) ids)%list.
Proof.
  induction ids as [|id ids IH]; intros acc st Hf Hd.
  - cbn. rewrite app_nil_r. reflexivity.
  - cbn [EmailHandler.collect flat_map]. unfold bind.
    pose proof (@parse_email_without_failures id st (Hf id) Hd) as Hp.
    destruct (parse_email_state faults decode id st) as [Hmb _].
    destruct (_parse_email id st) as [[[e|]|x] st1]; cbn in Hp, Hmb.
    + rewrite (IH _ st1 Hf Hd), Hmb, Hp, <- app_assoc. reflexivity.
    + rewrite (IH _ st1 Hf Hd), Hmb, Hp. reflexivity.
    + contradiction.
Qed.

(** X10.  When no request fails and [decode] raises nothing but
    [Exception]s, [fetch_emails] gives exactly the listed messages that
    are in the mailbox and whose body decodes, each as its dictionary, in
    the order of the listing. *)
Theorem fetch_emails_without_failures :
  forall label unread_only max_results st,
  (forall r, faults r = None) ->
  (forall data x, decode data = Raise x -> is_Exception x = true) ->
  fst (fetch_emails label unread_only max_results st)
  = Ret (flat_map (View.parsed decode (EmailHandler.mailbox st))
           (search (EmailHandler.query_of label unread_only) max_results
                   (EmailHandler.mailbox st))).
Proof.
  intros label unread_only n st Hf Hd.
  unfold EmailHandler.fetch_emails, try_except, bind, EmailHandler.execute,
    EmailHandler.reading, EmailHandler.answer_list, ret.
  rewrite Hf.
  match goal with
  | |- context [EmailHandler.collect faults decode ?ids [] ?st0] =>
      pose proof (@collect_without_failures ids [] st0
                    (fun id => Hf (EmailHandler.GetMessage id)) Hd) as Hc;
      destruct (EmailHandler.collect faults decode ids [] st0)
        as [[es|x] st1]
  end; cbn in Hc; [|discriminate Hc].
  cbn. exact Hc.
Qed.

End HandlerMore.

Lemma fetch_emails_requests_witness :
  EmailHandler.requests
    (snd (EmailHandler.fetch_emails Fixture.search Fixture.second_unavailable
            Fixture.decode "Giveaway" true 10%Z Fixture.inbox))
  = (EmailHandler.requests Fixture.inbox
       ++ EmailHandler.ListMessages
            (EmailHandler.query_of "Giveaway" true) 10%Z
          :: match Fixture.second_unavailable
                     (EmailHandler.ListMessages
                        (EmailHandler.query_of "Giveaway" true) 10%Z) with
             | Some _ => []
             | None =>
                 map EmailHandler.GetMessage
                   (Fixture.search (EmailHandler.query_of "Giveaway" true)
                      10%Z (EmailHandler.mailbox Fixture.inbox))
             end)%list.
Proof.
  apply (@fetch_emails_requests Fixture.search Fixture.second_unavailable
           Fixture.decode "Giveaway" true 10%Z Fixture.inbox
           [Fixture.car; Fixture.phone]).
  vm_compute. reflexivity.
Defined.

Lemma fetch_emails_without_failures_witness :
  fst (EmailHandler.fetch_emails Fixture.search Fixture.no_faults
         Fixture.decode "Giveaway" true 10%Z Fixture.inbox)
  = Ret (flat_map (View.parsed Fixture.decode
                     (EmailHandler.mailbox Fixture.inbox))
           (Fixture.search (EmailHandler.query_of "Giveaway" true) 10%Z
                           (EmailHandler.mailbox Fixture.inbox))).
Proof.
  apply (@fetch_emails_without_failures Fixture.search Fixture.no_faults
           Fixture.decode "Giveaway" true 10%Z Fixture.inbox).
  - intro r. reflexivity.
  - intros data x H. discriminate H.
Defined.

(** *** [mark_as_read] *)

Lemma marked_keeps_id : forall id m,
  Gmail.msg_id (View.marked id m) = Gmail.msg_id m.
Proof.
  intros id m. unfold View.marked.
  destruct (String.eqb (Gmail.msg_id m) id); reflexivity.
Qed.

Lemma removed_label_is_gone : forall labels,
  existsb (String.eqb "UNREAD")
    (filter (fun l => negb (existsb (String.eqb l) ["UNREAD"])) labels) = false.
Proof.
  induction labels as [|l ls IH]; [reflexivity|].
  cbn -[String.eqb]. rewrite orb_false_r.
  destruct (String.eqb l "UNREAD") eqn:E; cbn -[String.eqb]; [exact IH|].
  rewrite String.eqb_sym, E. exact IH.
Qed.

Lemma filter_twice : forall (A : Type) (f : A -> bool) l,
  filter f (filter f l) = filter f l.
Proof.
  intros A f l. induction l as [|a l IH]; [reflexivity|].
  cbn. destruct (f a) eqn:E; cbn; [rewrite E, IH; reflexivity|exact IH].
Qed.

Lemma marked_twice : forall id m,
  View.marked id (View.marked id m) = View.marked id m.
Proof.
  intros id m. unfold View.marked.
  destruct (String.eqb (Gmail.msg_id m) id) eqn:E; [|rewrite E; reflexivity].
  cbn. rewrite E. unfold EmailHandler.remove_labels. cbn.
  rewrite filter_twice. reflexivity.
Qed.

Lemma find_message_marked : forall id mb,
  EmailHandler.find_message id (map (View.marked id) mb)
  = option_map (View.marked id) (EmailHandler.find_message id mb).
Proof.
  intros id mb. unfold EmailHandler.find_message.
  induction mb as [|m mb IH]; [reflexivity|].
  cbn. rewrite marked_keeps_id.
  destruct (String.eqb (Gmail.msg_id m) id); [reflexivity|exact IH].
Qed.

Section MarkAsRead.

Variable faults : EmailHandler.request -> option exn.

Local Abbreviation mark_as_read := (EmailHandler.mark_as_read faults).
Local Abbreviation modify :=
  (fun id => EmailHandler.ModifyMessage id ["UNREAD"]).

(** [mark_as_read], case by case. *)
Lemma mark_as_read_run : forall id st,
  EmailHandler.requests (snd (mark_as_read id st))
  = (EmailHandler.requests st ++ [modify id])%list /\
  match mark_as_read id st with
  | (Ret true, st') =>
      faults (modify id) = None /\
      EmailHandler.find_message id (EmailHandler.mailbox st) <> None /\
      EmailHandler.mailbox st'
      = map (View.marked id) (EmailHandler.mailbox st) /\
      EmailHandler.stdout st' = EmailHandler.stdout st
  | (Ret false, st') =>
      EmailHandler.mailbox st' = EmailHandler.mailbox st /\
      (exists line,
          EmailHandler.stdout st' = (EmailHandler.stdout st ++ [line])%list) /\
      ((exists x, faults (modify id) = Some x /\ is_HttpError x = true) \/
       (faults (modify id) = None /\
        EmailHandler.find_message id (EmailHandler.mailbox st) = None))
  | (Raise x, st') =>
      faults (modify id) = Some x /\ is_HttpError x = false /\
      EmailHandler.mailbox st' = EmailHandler.mailbox st /\
      EmailHandler.stdout st' = EmailHandler.stdout st
  end.
Proof.
  intros id st.
  unfold EmailHandler.mark_as_read, try_except, bind, EmailHandler.execute,
    EmailHandler.answer_modify, EmailHandler.print, ret.
  destruct (faults (EmailHandler.ModifyMessage id ["UNREAD"])) as [x|] eqn:Hf.
  - destruct (is_HttpError x) eqn:Hx; cbn.
    + split; [reflexivity|]. split; [reflexivity|].
      split; [eexists; reflexivity|]. left. exists x. split; [reflexivity|exact Hx].
    + repeat split. exact Hx.
  - destruct (EmailHandler.find_message id (EmailHandler.mailbox st))
      as [m|] eqn:Hm; cbn.
    + repeat split. discriminate.
    + split; [reflexivity|]. split; [reflexivity|].
      split; [eexists; reflexivity|]. right. split; reflexivity.
Qed.

(** X11.  [mark_as_read] sends one request.  It answers [True] when the
    request went through for a message that is there, and only then is
    the mailbox changed; it answers [False], after printing one line, when
    the request failed with an [HttpError]; any other failure of the
    request is raised to the caller. *)
Theorem mark_as_read_cases : forall id st,
  EmailHandler.requests (snd (mark_as_read id st))
  = (EmailHandler.requests st ++ [modify id])%list /\
  match mark_as_read id st with
  | (Ret true, st') =>
      faults (modify id) = None /\
      EmailHandler.find_message id (EmailHandler.mailbox st) <> None /\
      EmailHandler.mailbox st'
      = map (View.marked id) (EmailHandler.mailbox st) /\
      EmailHandler.stdout st' = EmailHandler.stdout st
  | (Ret false, st') =>
      EmailHandler.mailbox st' = EmailHandler.mailbox st /\
      (exists line,
          EmailHandler.stdout st' = (EmailHandler.stdout st ++ [line])%list) /\
      ((exists x, faults (modify id) = Some x /\ is_HttpError x = true) \/
       (faults (modify id) = None /\
        EmailHandler.find_message id (EmailHandler.mailbox st) = None))
  | (Raise x, st') =>
      faults (modify id) = Some x /\ is_HttpError x = false /\
      EmailHandler.mailbox st' = EmailHandler.mailbox st /\
      EmailHandler.stdout st' = EmailHandler.stdout st
  end.
Proof. exact mark_as_read_run. Qed.

(** X12.  After a [mark_as_read] that answered [True], the mailbox holds
    the same messages in the same order; every message with the given
    identifier has lost its [UNREAD] label and kept its other labels;
    every other message is as it was. *)
Theorem mark_as_read_effect : forall id st,
  fst (mark_as_read id st) = Ret true ->
  let mb := EmailHandler.mailbox st in
  let mb' := EmailHandler.mailbox (snd (mark_as_read id st)) in
  map Gmail.msg_id mb' = map Gmail.msg_id mb /\
  (forall m', In m' mb' -> Gmail.msg_id m' = id -> Spec.unread m' = false) /\
  (forall m, In m mb -> Gmail.msg_id m <> id -> In m mb') /\
  (forall m l, In m mb -> In l (Gmail.labelIds m) -> l <> "UNREAD" ->
     exists m', In m' mb' /\ Gmail.msg_id m' = Gmail.msg_id m /\
                Gmail.msg_payload m' = Gmail.msg_payload m /\
                In l (Gmail.labelIds m')).
Proof.
  intros id st H mb mb'.
  destruct (mark_as_read_run id st) as [_ Hc].
  destruct (mark_as_read id st) as [[[|]|x] st1]; cbn in H; try discriminate H.
  destruct Hc as (_ & _ & Hmb & _). subst mb'. cbn. rewrite Hmb. fold mb.
  split; [|split; [|split]].
  - rewrite map_map. apply map_ext. apply marked_keeps_id.
  - intros m' Hin Hid. apply in_map_iff in Hin.
    destruct Hin as (m & <- & _). rewrite marked_keeps_id in Hid.
    unfold View.marked. apply String.eqb_eq in Hid. rewrite Hid.
    unfold Spec.unread, EmailHandler.remove_labels. cbn.
    apply removed_label_is_gone.
  - intros m Hin Hid. apply in_map_iff. exists m. split; [|exact Hin].
    unfold View.marked. apply String.eqb_neq in Hid. rewrite Hid. reflexivity.
  - intros m l Hin Hl Hne. exists (View.marked id m).
    split; [apply in_map; exact Hin|]. split; [apply marked_keeps_id|].
    unfold View.marked.
    destruct (String.eqb (Gmail.msg_id m) id); [|split; [reflexivity|exact Hl]].
    split; [reflexivity|]. cbn. apply filter_In. split; [exact Hl|].
    cbn. apply String.eqb_neq in Hne. rewrite Hne. reflexivity.
Qed.

(** X13.  [mark_as_read] is idempotent on the mailbox: when the request
    is not refused, a second call answers what the first answered and
    leaves the mailbox as the first left it. *)
Theorem mark_as_read_idempotent : forall id st,
  faults (modify id) = None ->
  let st1 := snd (mark_as_read id st) in
  fst (mark_as_read id st1) = fst (mark_as_read id st) /\
  EmailHandler.mailbox (snd (mark_as_read id st1)) = EmailHandler.mailbox st1.
Proof.
  intros id st Hf.
  unfold EmailHandler.mark_as_read, try_except, bind, EmailHandler.execute,
    EmailHandler.answer_modify, EmailHandler.print, ret.
  rewrite Hf.
  destruct (EmailHandler.find_message id (EmailHandler.mailbox st))
    as [m|] eqn:Hm; cbn.
  - change (fun m0 : Gmail.message =>
              if String.eqb (Gmail.msg_id m0) id
              then EmailHandler.remove_labels ["UNREAD"] m0 else m0)
      with (View.marked id).
    pose proof (find_message_marked id (EmailHandler.mailbox st)) as Hfm.
    rewrite Hm in Hfm. unfold EmailHandler.find_message in Hfm.
    rewrite Hfm. cbn.
    rewrite map_map. split; [reflexivity|].
    apply map_ext. apply marked_twice.
  - unfold EmailHandler.find_message in Hm. rewrite Hm. cbn.
    split; reflexivity.
Qed.

End MarkAsRead.

Lemma mark_as_read_effect_witness :
  let st := Fixture.inbox in
  let id := "18c2f0a1" in
  let mb := EmailHandler.mailbox st in
  let mb' := EmailHandler.mailbox
               (snd (EmailHandler.mark_as_read Fixture.no_faults id st)) in
  map Gmail.msg_id mb' = map Gmail.msg_id mb /\
  (forall m', In m' mb' -> Gmail.msg_id m' = id -> Spec.unread m' = false) /\
  (forall m, In m mb -> Gmail.msg_id m <> id -> In m mb') /\
  (forall m l, In m mb -> In l (Gmail.labelIds m) -> l <> "UNREAD" ->
     exists m', In m' mb' /\ Gmail.msg_id m' = Gmail.msg_id m /\
                Gmail.msg_payload m' = Gmail.msg_payload m /\
                In l (Gmail.labelIds m')).
Proof.
  intros st id.
  apply (@mark_as_read_effect Fixture.no_faults id st).
  reflexivity.
Defined.

Lemma mark_as_read_idempotent_witness :
  let st1 := snd (EmailHandler.mark_as_read Fixture.no_faults "18c2f0a1"
                    Fixture.inbox) in
  fst (EmailHandler.mark_as_read Fixture.no_faults "18c2f0a1" st1)
  = fst (EmailHandler.mark_as_read Fixture.no_faults "18c2f0a1" Fixture.inbox) /\
  EmailHandler.mailbox
    (snd (EmailHandler.mark_as_read Fixture.no_faults "18c2f0a1" st1))
  = EmailHandler.mailbox st1.
Proof.
  apply (@mark_as_read_idempotent Fixture.no_faults "18c2f0a1" Fixture.inbox).
  reflexivity.
Defined.

(** *** [_parse_email] and [_get_email_body] *)

Section ParseMore.

Variable faults : EmailHandler.request -> option exn.
Variable decode : string -> outcome string.

Local Abbreviation _parse_email := (EmailHandler._parse_email faults decode).
Local Abbreviation _get_email_body := (EmailHandler._get_email_body decode).

(** X14.  The body of a message with parts is the decoded data of its
    first plain-text part that has data; parts before it, and the
    payload's own data, play no role.  With parts none of which is plain
    text with data, the body is empty.  Without parts it is the decoded
    data of the payload, or empty when there is none. *)
Theorem get_email_body_cases : forall payload,
  (forall before p after,
      Gmail.parts payload = Some (before ++ p :: after)%list ->
      forallb (fun q => negb (View.plain_with_data q)) before = true ->
      View.plain_with_data p = true ->
      _get_email_body payload = decode (Gmail.part_data p)) /\
  (forall ps,
      Gmail.parts payload = Some ps ->
      forallb (fun q => negb (View.plain_with_data q)) ps = true ->
      _get_email_body payload = Ret "") /\
  (Gmail.parts payload = None ->
   _get_email_body payload
   = if String.eqb (Gmail.body_data payload) "" then Ret ""
     else decode (Gmail.body_data payload)).
Proof.
  intro payload. unfold EmailHandler._get_email_body. repeat split.
  - intros before p after -> Hb Hp.
    induction before as [|q before IH]; cbn in *.
    + unfold View.plain_with_data in Hp. rewrite Hp. reflexivity.
    + apply andb_prop in Hb. destruct Hb as [Hq Hb].
      unfold View.plain_with_data in Hq. apply negb_true_iff in Hq.
      rewrite Hq. exact (IH Hb).
  - intros ps -> Hps.
    induction ps as [|q ps IH]; cbn in *; [reflexivity|].
    apply andb_prop in Hps. destruct Hps as [Hq Hps].
    unfold View.plain_with_data in Hq. apply negb_true_iff in Hq.
    rewrite Hq. exact (IH Hps).
  - intros ->. destruct (String.eqb (Gmail.body_data payload) ""); reflexivity.
Qed.

(** X15.  The dictionary that [_parse_email] gives carries the identifier
    it was asked for, the message as the service gave it, the value of
    the first [Subject] header, or [No Subject] when there is none, and
    the value of the first [From] header, or [Unknown].  When it gives
    [None] it has printed one line, and it raises nothing that is an
    [Exception]. *)
Theorem parse_email_fields : forall id st,
  match _parse_email id st with
  | (Ret (Some e), st') =>
      em_id e = id /\
      EmailHandler.find_message id (EmailHandler.mailbox st) = Some (em_raw e) /\
      _get_email_body (Gmail.msg_payload (em_raw e)) = Ret (em_body e) /\
      em_subject e
      = match find (fun h => String.eqb (Gmail.h_name h) "Subject")
                   (Gmail.headers (Gmail.msg_payload (em_raw e))) with
        | Some h => Gmail.h_value h
        | None => "No Subject"
        end /\
      em_from e
      = match find (fun h => String.eqb (Gmail.h_name h) "From")
                   (Gmail.headers (Gmail.msg_payload (em_raw e))) with
        | Some h => Gmail.h_value h
        | None => "Unknown"
        end /\
      EmailHandler.stdout st' = EmailHandler.stdout st
  | (Ret None, st') =>
      exists line,
        EmailHandler.stdout st' = (EmailHandler.stdout st ++ [line])%list
  | (Raise x, st') =>
      is_Exception x = false /\
      EmailHandler.stdout st' = EmailHandler.stdout st
  end.
Proof.
  intros id st. run_parse faults decode id st.
  - eexists. reflexivity.
  - split; [assumption|reflexivity].
  - repeat split; assumption.
  - eexists. reflexivity.
  - split; [assumption|reflexivity].
  - eexists. reflexivity.
Qed.

End ParseMore.

(** ** main.py *)

Lemma message_run_no_fetch : forall e seg lg r,
  Spec.message_run e seg lg r -> existsb View.is_fetch seg = false.
Proof.
  intros e seg lg r H. destruct H; reflexivity.
Qed.

Lemma loop_run_no_fetch : forall batch cs ls r,
  Spec.loop_run batch cs ls r -> existsb View.is_fetch cs = false.
Proof.
  intros batch cs ls r H.
  induction H as [|e es seg lg cs ls r Hm Hl IH|e es seg lg y Hm].
  - reflexivity.
  - rewrite existsb_app, IH, (message_run_no_fetch Hm). reflexivity.
  - exact (message_run_no_fetch Hm).
Qed.

(** The calls of a cycle: the fetch, then calls that are no fetch. *)
Lemma process_emails_one_fetch :
  forall (St : Type) (self : Main.collaborators St) (w : Main.world St),
  exists cs,
    Main.calls (snd (Main.process_emails self w))
    = (Main.calls w
         ++ Main.CallFetch "Giveaway" true
              (fst (Main.fetch_emails self "Giveaway" true 10%Z (Main.collab w)))
            :: cs)%list /\
    existsb View.is_fetch cs = false.
Proof.
  intros St self w.
  destruct (Main.fetch_emails self "Giveaway" true 10%Z (Main.collab w))
    as [[batch|x] st1] eqn:E.
  - destruct (process_emails_fetched self w E) as (cs & ls & Hloop & Hc & _).
    exists cs. split; [exact Hc|exact (loop_run_no_fetch Hloop)].
  - exists []. split; [|reflexivity].
    unfold Main.process_emails, try_except, bind, Main.invoke.
    cbn. rewrite E. cbn. destruct (is_Exception x); reflexivity.
Qed.

(** X16.  Every cycle calls [fetch_emails] exactly once, before any other
    call on a collaborator, with the label [Giveaway], unread messages
    only and at most ten results. *)
Theorem cycle_fetches_once :
  forall (St : Type) (self : Main.collaborators St) (w : Main.world St),
  exists cs,
    Main.calls (snd (Main.process_emails self w))
    = (Main.calls w
         ++ Main.CallFetch "Giveaway" true
              (fst (Main.fetch_emails self "Giveaway" true 10%Z (Main.collab w)))
            :: cs)%list /\
    existsb View.is_fetch cs = false.
Proof. exact process_emails_one_fetch. Qed.

(** X17.  A cycle that fetched a batch and came to its end accounts for
    every message of the batch exactly once.  The messages acted upon
    (the calls of [participate_in_giveaway] that came back), the messages
    skipped (the verdict records that no attempt record follows) and the
    messages failed (the [ERROR] records of the loop) add up to the
    number fetched, which is the number in the second record the cycle
    logs; its last record says that the cycle completed. *)
Theorem cycle_accounts_for_every_message :
  forall (St : Type) (self : Main.collaborators St) (w w' : Main.world St)
         (batch : list email) (st1 : St),
  Main.fetch_emails self "Giveaway" true 10%Z (Main.collab w) = (Ret batch, st1) ->
  Main.process_emails self w = (Ret tt, w') ->
  exists cs ls,
    Main.calls w'
    = (Main.calls w ++ Main.CallFetch "Giveaway" true (Ret batch) :: cs)%list /\
    Main.log w'
    = (Main.log w
         ++ [Logger.info "Starting email processing cycle";
             Logger.info ("Fetched " ++ Main.str_of_nat (List.length batch)
                          ++ " unread emails")]
         ++ ls
         ++ [Logger.info "Email processing cycle completed"])%list /\
    Spec.n_acted cs + Spec.n_skipped ls + Spec.n_failed ls = List.length batch /\
    Spec.outcomes w' = Spec.outcomes w + List.length batch.
Proof.
  intros St self w w' batch st1 Hf Hrun.
  destruct (process_emails_fetched self w Hf) as (cs & ls & Hloop & Hc & Hl).
  rewrite Hrun in Hloop, Hc, Hl. cbn in Hloop, Hc, Hl.
  pose proof (loop_run_outcomes Hloop) as Hn.
  pose proof (loop_run_first_record Hloop) as Hfirst.
  exists cs, ls. split; [exact Hc|]. split; [exact Hl|]. split; [lia|].
  unfold Spec.outcomes. rewrite Hc, Hl.
  rewrite !n_failed_app, n_acted_app.
  rewrite n_skipped_app by reflexivity.
  cbn [Spec.n_skipped].
  rewrite n_skipped_app by reflexivity.
  unfold Spec.n_failed, Spec.n_acted in *. cbn.
  rewrite !filter_app, !length_app. cbn. lia.
Qed.

Lemma cycle_accounts_for_every_message_witness :
  let batch := [Fixture.car; Fixture.corrupt; Fixture.phone] in
  let self := Fixture.fake (Ret batch) in
  let w' := snd (Main.process_emails self Fixture.start) in
  exists cs ls,
    Main.calls w'
    = (Main.calls Fixture.start
         ++ Main.CallFetch "Giveaway" true (Ret batch) :: cs)%list /\
    Main.log w'
    = (Main.log Fixture.start
         ++ [Logger.info "Starting email processing cycle";
             Logger.info ("Fetched " ++ Main.str_of_nat (List.length batch)
                          ++ " unread emails")]
         ++ ls
         ++ [Logger.info "Email processing cycle completed"])%list /\
    Spec.n_acted cs + Spec.n_skipped ls + Spec.n_failed ls = List.length batch /\
    Spec.outcomes w' = Spec.outcomes Fixture.start + List.length batch.
Proof.
  intros batch self w'.
  apply (@cycle_accounts_for_every_message nat self Fixture.start w' batch 1).
  - reflexivity.
  - reflexivity.
Defined.

(** X18.  A cycle whose fetch gave no message calls nothing but the
    fetch, logs that it started, that it fetched 0 messages and that it
    completed, and comes to its end. *)
Theorem empty_cycle :
  forall (St : Type) (self : Main.collaborators St) (w : Main.world St)
         (st1 : St),
  Main.fetch_emails self "Giveaway" true 10%Z (Main.collab w) = (Ret [], st1) ->
  Main.process_emails self w
  = (Ret tt,
     {| Main.collab := st1;
        Main.log :=
          (Main.log w
             ++ [Logger.info "Starting email processing cycle";
                 Logger.info "Fetched 0 unread emails";
                 Logger.info "Email processing cycle completed"])%list;
        Main.calls :=
          (Main.calls w ++ [Main.CallFetch "Giveaway" true (Ret [])])%list |}).
Proof.
  intros St self w st1 Hf.
  rewrite (process_emails_unfold self w Hf). cbn.
  unfold Main.logger. cbn. rewrite <- !app_assoc. reflexivity.
Qed.

Lemma empty_cycle_witness :
  Main.process_emails (Fixture.fake (Ret [])) Fixture.start
  = (Ret tt,
     {| Main.collab := 1;
        Main.log :=
          (Main.log Fixture.start
             ++ [Logger.info "Starting email processing cycle";
                 Logger.info "Fetched 0 unread emails";
                 Logger.info "Email processing cycle completed"])%list;
        Main.calls :=
          (Main.calls Fixture.start
             ++ [Main.CallFetch "Giveaway" true (Ret [])])%list |}).
Proof.
  apply (@empty_cycle nat (Fixture.fake (Ret [])) Fixture.start 1).
  reflexivity.
Defined.

(** ** Cycles run one after the other *)

Section SystemMore.

Variable search : string -> Z -> list Gmail.message -> list string.
Variable faults : EmailHandler.request -> option exn.
Variable decode : string -> outcome string.

Variable ndarray : Type.
Variable str_lower : string -> string.
Variable pad_sequences : list (list Z) -> Z -> outcome ndarray.

Variable browser : Type.
Variable element : Type.
Variable driver_get : string -> M browser unit.
Variable find_elements : string -> M browser (list element).
Variable send_keys : element -> string -> M browser unit.
Variable click : element -> M browser unit.

Local Abbreviation ports :=
  (System.collaborators_of search faults decode str_lower pad_sequences
     driver_get find_elements send_keys click).
Local Abbreviation run_cycles :=
  (System.run_cycles search faults decode str_lower pad_sequences
     driver_get find_elements send_keys click).

(** X20.  [n] cycles run one after the other fetch [n] times: each cycle
    asks the mail service anew and none uses what an earlier one
    fetched. *)
Theorem cycles_fetch_each_time :
  forall (self : System.t ndarray) (n : nat)
         (w : Main.world (System.state browser)),
  List.length (filter View.is_fetch (Main.calls (run_cycles self n w)))
  = List.length (filter View.is_fetch (Main.calls w)) + n.
Proof.
  intros self n. induction n as [|n IH]; intro w.
  - cbn. lia.
  - cbn [System.run_cycles]. rewrite IH.
    destruct (process_emails_one_fetch (ports self) w) as (cs & Hc & Hcs).
    unfold System.process_emails. rewrite Hc.
    rewrite filter_app, length_app. cbn [filter View.is_fetch].
    assert (Hnone : filter View.is_fetch cs = []).
    { clear Hc. induction cs as [|c cs IHcs]; [reflexivity|].
      cbn in Hcs. apply orb_false_elim in Hcs. destruct Hcs as [Hc0 Hcs].
      cbn. rewrite Hc0. exact (IHcs Hcs). }
    rewrite Hnone. cbn. lia.
Qed.

End SystemMore.

(** ** The entry point *)

Section StartupFacts.

Variable St : Type.
Variable construct : option string -> M (Main.world St) (Main.collaborators St).
Variable add_job :
  Main.collaborators St -> Z -> string -> string -> M (Main.world St) unit.
Variable scheduler_start : M (Main.world St) unit.
Variable scheduler_shutdown : M (Main.world St) unit.
Variable wait : Main.world St -> exn * Main.world St.

Local Abbreviation main :=
  (@Startup.main St construct add_job scheduler_start scheduler_shutdown wait).

(** What leaves a cycle is no [Exception]. *)
Lemma run_once_lets_no_Exception_out :
  forall (system : Main.collaborators St) (w : Main.world St) x,
  fst (Main.run_once system w) = Raise x -> is_Exception x = false.
Proof.
  intros system w x. unfold Main.run_once, Main.process_emails.
  apply try_except_lets_no_Exception_out.
  intros e s y. cbn. discriminate.
Qed.

(** X21.  A single run ([--mode once]) logs that it starts, runs one
    cycle and logs that it is done; its exit code is 0 whatever happened
    in the cycle, a failed fetch included.  Exit code 1 is never given in
    this mode: the only other way out is an exception of the cycle that
    is no [Exception], which leaves [main] as it is. *)
Theorem once_mode_exits_zero :
  forall (a : Startup.args) (w w1 : Main.world St)
         (system : Main.collaborators St),
  Startup.arg_mode a = Startup.once ->
  construct (Startup.arg_config a) w = (Ret system, w1) ->
  let cycle :=
    Main.run_once system
      (snd (Main.logger (Logger.info "Running in ONCE mode") w1)) in
  match fst cycle with
  | Ret _ =>
      main a w
      = (Ret 0%Z,
         snd (Main.logger (Logger.info "Single run completed") (snd cycle)))
  | Raise x =>
      is_Exception x = false /\ main a w = (Raise x, snd cycle)
  end.
Proof.
  intros a w w1 system Hmode Hc cycle.
  pose proof (@run_once_lets_no_Exception_out system
                (snd (Main.logger (Logger.info "Running in ONCE mode") w1)))
    as Hout.
  fold cycle in Hout.
  assert (Hmain : main a w
                  = match cycle with
                    | (Ret _, w2) =>
                        (Ret 0%Z,
                         snd (Main.logger (Logger.info "Single run completed") w2))
                    | (Raise x, w2) =>
                        if is_Exception x
                        then (Ret 1%Z,
                              snd (Main.logger
                                     (Logger.error_exc ("Fatal error: " ++ exn_str x))
                                     w2))
                        else (Raise x, w2)
                    end).
  { unfold Startup.main. unfold bind at 1. rewrite Hc, Hmode.
    unfold try_except, bind, Startup.log_info. subst cycle.
    cbn -[Main.run_once].
    match goal with
    | |- context [Main.run_once system ?w0] =>
        destruct (Main.run_once system w0) as [[[]|x] w2]
    end; cbn; [reflexivity|].
    destruct (is_Exception x); reflexivity. }
  rewrite Hmain. destruct cycle as [[[]|x] w2]; cbn in *.
  - reflexivity.
  - rewrite (Hout x eq_refl). split; reflexivity.
Qed.

(** X22.  [main] as a whole.  The system is built before the [try]: when
    the constructor raises, the exception leaves [main] as it is, with
    nothing logged by [main] and no exit code.  Once the system is built,
    [main] gives 0 or 1; it gives 1 only in [auto] mode and only after
    logging a fatal error for an [Exception]; and what leaves it is no
    [Exception]. *)
Theorem main_exit_code :
  forall (a : Startup.args) (w : Main.world St),
  match construct (Startup.arg_config a) w with
  | (Raise x, w1) => main a w = (Raise x, w1)
  | (Ret system, w1) =>
      match main a w with
      | (Ret code, w') =>
          code = 0%Z \/
          (code = 1%Z /\ Startup.arg_mode a = Startup.auto /\
           exists x l,
             is_Exception x = true /\
             Main.log w'
             = (l ++ [Logger.error_exc ("Fatal error: " ++ exn_str x)])%list)
      | (Raise x, _) => is_Exception x = false
      end
  end.
Proof.
  intros a w.
  destruct (construct (Startup.arg_config a) w) as [[system|x] w1] eqn:Hc.
  2:{ unfold Startup.main, bind. rewrite Hc. reflexivity. }
  unfold Startup.main. unfold bind at 1. rewrite Hc.
  unfold bind at 1. unfold try_except at 1. unfold bind at 1.
  match goal with
  | |- context [match ?body w1 with _ => _ end] =>
      destruct (body w1) as [[[]|x] w2] eqn:Hbody
  end; cbn.
  - left. reflexivity.
  - destruct (is_Exception x) eqn:Hx; cbn; [|exact Hx].
    right. split; [reflexivity|]. split.
    + destruct (Startup.arg_mode a); [reflexivity|exfalso].
      revert Hbody. unfold bind, Startup.log_info. cbn -[Main.run_once].
      match goal with
      | |- context [Main.run_once system ?w0] =>
          pose proof (@run_once_lets_no_Exception_out system w0) as Hout;
          destruct (Main.run_once system w0) as [[[]|y] w3]
      end; cbn; [discriminate|].
      intro H. injection H as -> _.
      rewrite (Hout x eq_refl) in Hx. discriminate.
    + exists x, (Main.log w2). split; [exact Hx|reflexivity].
Qed.

End StartupFacts.

Lemma once_mode_exits_zero_witness :
  Scenario.main Startup.defaults Fixture.start
  = (Ret 0%Z,
     {| Main.collab := 1;
        Main.log :=
          [Logger.info "Email Automation System initialized";
           Logger.info "Running in ONCE mode";
           Logger.info "Starting email processing cycle";
           Main.critical_record
             (mk_exn ConnectionError "network is unreachable");
           Logger.info "Single run completed"];
        Main.calls :=
          [Main.CallFetch "Giveaway" true
             (Raise (mk_exn ConnectionError "network is unreachable"))] |}).
Proof.
  exact (@once_mode_exits_zero nat Scenario.construct Scenario.add_job
           Scenario.scheduler_start Scenario.scheduler_shutdown Scenario.wait
           Startup.defaults Fixture.start _ _ eq_refl eq_refl).
Defined.

(** The same start in [auto] mode, interrupted from the keyboard: the
    scheduler is started and stopped, and the exit code is 0. *)
Example auto_mode_example :
  Scenario.main
    {| Startup.arg_mode := Startup.auto;
       Startup.arg_interval := 60%Z;
       Startup.arg_config := None;
       Startup.arg_log_level := Logger.INFO |}
    Fixture.start
  = (Ret 0%Z,
     {| Main.collab := 0;
        Main.log :=
          [Logger.info "Email Automation System initialized";
           Logger.info "Starting in AUTO mode with 60s interval";
           Logger.info "Scheduler started with 60s interval";
           Logger.info "Received interrupt signal";
           Logger.info "Scheduler stopped";
           Logger.info "System shutting down gracefully"];
        Main.calls := [] |}).
Proof. vm_compute. reflexivity. Qed.

(** ** The token file *)

Section AuthFacts.

Variable service : Type.
Variable pickle_load : string -> outcome Auth.credentials.
Variable open_wb : outcome unit.
Variable pickle_dump : Auth.credentials -> string * option exn.
Variable refresh : Auth.credentials -> outcome Auth.credentials.
Variable run_flow : string -> outcome Auth.credentials.
Variable build : Auth.credentials -> outcome service.

Local Abbreviation _authenticate :=
  (@Auth._authenticate service pickle_load open_wb pickle_dump refresh
     run_flow build).

(** The renewal of lines 45-48, from the renewed credentials on: the
    write and then [build]. *)
Lemma save_and_build : forall c (d : Auth.disk),
  match Auth.save_token open_wb pickle_dump c d with
  | (Ret _, d1) =>
      exists bytes, pickle_dump c = (bytes, None) /\ d1 = Some bytes
  | (Raise x, d1) =>
      d1 = d \/
      exists written, pickle_dump c = (written, Some x) /\ d1 = Some written
  end.
Proof.
  intros c d. unfold Auth.save_token.
  destruct open_wb as [[]|x]; [|left; reflexivity].
  destruct (pickle_dump c) as [bytes [x|]] eqn:Hdump.
  - right. exists bytes. split; reflexivity.
  - exists bytes. split; reflexivity.
Qed.

(** X23.  [_authenticate] and [token.pickle].  When it returns a service,
    the service was built from credentials that are either the valid ones
    the file held, the file being left as it was, or renewed ones that
    [pickle.dump] wrote to the file in full.  When it raises, the file is
    as it was, or it holds what [pickle.dump] had written of the renewed
    credentials when it raised, the token it held before being lost, or
    it holds the renewed credentials in full and it is [build] that
    raised. *)
Theorem authenticate_token_file :
  forall (path : string) (d : Auth.disk),
  match _authenticate path d with
  | (Ret svc, d') =>
      exists c,
        build c = Ret svc /\
        ((d' = d /\ Auth.valid c = true /\
          exists bytes, d = Some bytes /\ pickle_load bytes = Ret c)
         \/ exists bytes, pickle_dump c = (bytes, None) /\ d' = Some bytes)
  | (Raise x, d') =>
      d' = d \/
      (exists c written,
          pickle_dump c = (written, Some x) /\ d' = Some written) \/
      (exists c bytes,
          pickle_dump c = (bytes, None) /\ d' = Some bytes /\
          build c = Raise x)
  end.
Proof.
  intros path d.
  assert (Hrenew : forall c,
    match (Auth.save_token open_wb pickle_dump c ;;; ret c) d with
    | (Ret c', d1) =>
        c' = c /\ exists bytes, pickle_dump c = (bytes, None) /\ d1 = Some bytes
    | (Raise x, d1) =>
        d1 = d \/
        exists written, pickle_dump c = (written, Some x) /\ d1 = Some written
    end).
  { intro c. unfold bind, ret. pose proof (save_and_build c d) as H.
    destruct (Auth.save_token open_wb pickle_dump c d) as [[[]|x] d1].
    - split; [reflexivity|exact H].
    - exact H. }
  assert (Hend : forall c,
    match (creds <- (Auth.save_token open_wb pickle_dump c ;;; ret c) ;;
           lift (build creds)) d with
    | (Ret svc, d') =>
        exists c,
          build c = Ret svc /\
          ((d' = d /\ Auth.valid c = true /\
            exists bytes, d = Some bytes /\ pickle_load bytes = Ret c)
           \/ exists bytes, pickle_dump c = (bytes, None) /\ d' = Some bytes)
    | (Raise x, d') =>
        d' = d \/
        (exists c written,
            pickle_dump c = (written, Some x) /\ d' = Some written) \/
        (exists c bytes,
            pickle_dump c = (bytes, None) /\ d' = Some bytes /\
            build c = Raise x)
    end).
  { intro c. specialize (Hrenew c). unfold bind at 1.
    destruct ((Auth.save_token open_wb pickle_dump c ;;; ret c) d)
      as [[c'|x] d1].
    - destruct Hrenew as (-> & bytes & Hdump & ->). unfold lift.
      destruct (build c) as [svc|x] eqn:Hbuild.
      + exists c. split; [exact Hbuild|]. right. exists bytes. auto.
      + right. right. exists c, bytes. auto.
    - destruct Hrenew as [-> | (written & Hdump & ->)].
      + left. reflexivity.
      + right. left. exists c, written. auto. }
  unfold Auth._authenticate, Auth.load_token.
  unfold bind at 1.
  destruct d as [bytes|].
  - destruct (pickle_load bytes) as [c0|x] eqn:Hload; [|left; reflexivity].
    cbn [Auth.must_renew Auth.can_refresh].
    destruct (Auth.valid c0) eqn:Hvalid; cbn [negb].
    + unfold bind, ret, lift.
      destruct (build c0) as [svc|x] eqn:Hbuild; [|left; reflexivity].
      exists c0. split; [exact Hbuild|]. left. split; [reflexivity|].
      split; [exact Hvalid|]. exists bytes. split; [reflexivity|exact Hload].
    + destruct (Auth.expired c0 && Auth.has_refresh_token c0).
      * unfold bind at 2. unfold lift at 1.
        destruct (refresh c0) as [c|x].
        -- exact (Hend c).
        -- unfold bind. left. reflexivity.
      * unfold bind at 2. unfold lift at 1.
        destruct (run_flow path) as [c|x].
        -- exact (Hend c).
        -- unfold bind. left. reflexivity.
  - cbn [Auth.must_renew Auth.can_refresh].
    unfold bind at 2. unfold lift at 1.
    destruct (run_flow path) as [c|x].
    + exact (Hend c).
    + unfold bind. left. reflexivity.
Qed.

(** The credentials in hand are valid: they are used as they are and the
    token file is not written. *)
Lemma authenticate_with_valid_token : forall path bytes c,
  pickle_load bytes = Ret c ->
  Auth.valid c = true ->
  _authenticate path (Some bytes) = (build c, Some bytes).
Proof.
  intros path bytes c Hload Hvalid.
  unfold Auth._authenticate, Auth.load_token, bind, lift, ret. cbn.
  rewrite Hload. cbn. rewrite Hvalid. cbn. reflexivity.
Qed.

(** X24.  Authenticating again.  When what [refresh] and the consent flow
    give is valid and is read back from the token file as it was written,
    a start that follows a start that returned finds its credentials in
    the file: it builds the same service whatever its credentials path
    is, and leaves the file as it is. *)
Theorem authenticate_again_reuses_token :
  forall (path path' : string) (d d' : Auth.disk) (svc : service),
  (forall c0 c, refresh c0 = Ret c ->
                Auth.valid c = true /\
                forall bytes, pickle_dump c = (bytes, None) ->
                              pickle_load bytes = Ret c) ->
  (forall c, run_flow path = Ret c ->
             Auth.valid c = true /\
             forall bytes, pickle_dump c = (bytes, None) ->
                           pickle_load bytes = Ret c) ->
  _authenticate path d = (Ret svc, d') ->
  _authenticate path' d' = (Ret svc, d').
Proof.
  intros path path' d d' svc Hrefresh Hflow Hrun.
  assert (Hrenewed : forall c,
             (Auth.valid c = true /\
              forall bytes, pickle_dump c = (bytes, None) ->
                            pickle_load bytes = Ret c) ->
             (creds <- (Auth.save_token open_wb pickle_dump c ;;; ret c) ;;
              lift (build creds)) d = (Ret svc, d') ->
             _authenticate path' d' = (Ret svc, d')).
  { intros c [Hvalid Hload]. unfold bind, ret, lift.
    pose proof (save_and_build c d) as Hsave.
    destruct (Auth.save_token open_wb pickle_dump c d) as [[[]|x] d1];
      [|discriminate].
    destruct Hsave as (bytes & Hdump & ->).
    destruct (build c) as [svc0|x] eqn:Hbuild; [|discriminate].
    intro H. injection H as <- <-.
    rewrite (@authenticate_with_valid_token path' _ _ (Hload bytes Hdump) Hvalid).
    rewrite Hbuild. reflexivity. }
  revert Hrun.
  unfold Auth._authenticate at 1. unfold Auth.load_token.
  unfold bind at 1.
  destruct d as [bytes|].
  - destruct (pickle_load bytes) as [c0|x] eqn:Hload; [|discriminate].
    cbn [Auth.must_renew Auth.can_refresh].
    destruct (Auth.valid c0) eqn:Hvalid; cbn [negb].
    + unfold bind, ret, lift.
      destruct (build c0) as [svc0|x] eqn:Hbuild; [|discriminate].
      intro H. injection H as <- <-.
      rewrite (@authenticate_with_valid_token path' _ _ Hload Hvalid).
      rewrite Hbuild. reflexivity.
    + destruct (Auth.expired c0 && Auth.has_refresh_token c0).
      * unfold bind at 2. unfold lift at 1.
        destruct (refresh c0) as [c|x] eqn:Hr.
        -- exact (Hrenewed c (Hrefresh c0 c Hr)).
        -- unfold bind. discriminate.
      * unfold bind at 2. unfold lift at 1.
        destruct (run_flow path) as [c|x] eqn:Hr.
        -- exact (Hrenewed c (Hflow c eq_refl)).
        -- unfold bind. discriminate.
  - cbn [Auth.must_renew Auth.can_refresh].
    unfold bind at 2. unfold lift at 1.
    destruct (run_flow path) as [c|x] eqn:Hr.
    + exact (Hrenewed c (Hflow c eq_refl)).
    + unfold bind. discriminate.
Qed.

End AuthFacts.

Lemma authenticate_again_reuses_token_witness :
  Scenario._authenticate "config/credentials.json" None
  = (Ret "gmail v1 with granted by config/credentials.json",
     Some "granted by config/credentials.json") /\
  Scenario._authenticate "elsewhere.json"
    (Some "granted by config/credentials.json")
  = (Ret "gmail v1 with granted by config/credentials.json",
     Some "granted by config/credentials.json").
Proof.
  split; [reflexivity|].
  apply (@authenticate_again_reuses_token string
           Scenario.pickle_load Scenario.open_wb Scenario.pickle_dump
           Scenario.refresh Scenario.run_flow Scenario.build
           "config/credentials.json" "elsewhere.json" None).
  - intros c0 c H. injection H as <-. split; [reflexivity|].
    intros bytes Hd. injection Hd as <-. reflexivity.
  - intros c H. injection H as <-. split; [reflexivity|].
    intros bytes Hd. injection Hd as <-. reflexivity.
  - reflexivity.
Defined.

(** A token that is no longer valid and cannot be refreshed, and a
    [pickle.dump] that raises as soon as the file is open: the consent
    flow has run, the exception leaves [_authenticate], and the file is
    empty. *)
Example failed_dump_loses_the_token :
  Auth._authenticate
    (fun bytes => Ret {| Auth.valid := false;
                         Auth.expired := true;
                         Auth.refresh_token := None;
                         Auth.secret := bytes |})
    (Ret tt)
    (fun c => ("", Some (mk_exn TypeError "cannot pickle")))
    Scenario.refresh Scenario.run_flow Scenario.build
    "config/credentials.json" (Some "old token")
  = (Raise (mk_exn TypeError "cannot pickle"), Some "").
Proof. reflexivity. Qed.

(** ** The logger set-up *)

(** The registry gives back the logger that was put under a name. *)
Lemma get_put_logger : forall name lg reg,
  LoggerSetup.get_logger name (LoggerSetup.put_logger name lg reg) = lg.
Proof.
  intros name lg reg. unfold LoggerSetup.get_logger.
  induction reg as [|entry reg IH]; cbn.
  - rewrite String.eqb_refl. reflexivity.
  - destruct (String.eqb (fst entry) name) eqn:He; cbn.
    + rewrite String.eqb_refl. reflexivity.
    + rewrite He. exact IH.
Qed.

(** Putting a logger under a name leaves the other names as they are. *)
Lemma get_put_logger_other : forall name other lg reg,
  other <> name ->
  LoggerSetup.get_logger other (LoggerSetup.put_logger name lg reg)
  = LoggerSetup.get_logger other reg.
Proof.
  intros name other lg reg Hne. unfold LoggerSetup.get_logger.
  assert (Hname : String.eqb name other = false).
  { apply String.eqb_neq. congruence. }
  induction reg as [|entry reg IH]; cbn.
  - rewrite Hname. reflexivity.
  - destruct (String.eqb (fst entry) name) eqn:He; cbn.
    + rewrite Hname. apply String.eqb_eq in He. rewrite He, Hname.
      reflexivity.
    + destruct (String.eqb (fst entry) other); [reflexivity|exact IH].
Qed.

(** X25.  What [setup_logger] leaves behind.  The logger it returns is
    the one registered under the name; its level is the one asked for and
    it has at least one handler; the loggers of other names are
    untouched; the directory [logs] exists, beside the directories that
    were there; and one more file has been opened, named after the
    day. *)
Theorem setup_logger_effect :
  forall (name : string) (log_level : Logger.level) (st : LoggerSetup.state),
  exists lg st',
    LoggerSetup.setup_logger name log_level st = (Ret lg, st') /\
    LoggerSetup.get_logger name (LoggerSetup.registry st') = lg /\
    LoggerSetup.lg_level lg = Some log_level /\
    LoggerSetup.lg_handlers lg <> [] /\
    (forall other, other <> name ->
       LoggerSetup.get_logger other (LoggerSetup.registry st')
       = LoggerSetup.get_logger other (LoggerSetup.registry st)) /\
    In "logs" (LoggerSetup.dirs st') /\
    (forall dir, In dir (LoggerSetup.dirs st) -> In dir (LoggerSetup.dirs st')) /\
    LoggerSetup.opened st'
    = (LoggerSetup.opened st
         ++ [LoggerSetup.log_filename (LoggerSetup.today st)])%list.
Proof.
  intros name log_level st. eexists. eexists.
  split; [reflexivity|]. cbn -[String.eqb].
  split; [apply get_put_logger|].
  split; [destruct (LoggerSetup.lg_handlers
                      (LoggerSetup.get_logger name (LoggerSetup.registry st)));
          reflexivity|].
  split; [destruct (LoggerSetup.lg_handlers
                      (LoggerSetup.get_logger name (LoggerSetup.registry st)));
          cbn; discriminate|].
  split; [intros other Hne; apply get_put_logger_other; exact Hne|].
  split; [|split; [|reflexivity]].
  - destruct (existsb (String.eqb "logs") (LoggerSetup.dirs st)) eqn:Hd.
    + apply existsb_exists in Hd. destruct Hd as (dir & Hin & Heq).
      apply String.eqb_eq in Heq. subst dir. exact Hin.
    + apply in_or_app. right. left. reflexivity.
  - intros dir Hin.
    destruct (existsb (String.eqb "logs") (LoggerSetup.dirs st));
      [exact Hin|apply in_or_app; left; exact Hin].
Qed.

(** X26.  Setting a logger up a second time.  The handlers are those of
    the first call: they keep the first call's level, and the file
    handler keeps writing to the file of the day of the first call, even
    when the second call asks for another level or comes on another day.
    Only the level of the logger itself is the new one; the file of the
    day of the second call is opened all the same. *)
Theorem setup_logger_twice :
  forall (name : string) (l1 l2 : Logger.level) (st st2 : LoggerSetup.state),
  LoggerSetup.lg_handlers (LoggerSetup.get_logger name (LoggerSetup.registry st))
  = [] ->
  LoggerSetup.get_logger name (LoggerSetup.registry st2)
  = LoggerSetup.get_logger name
      (LoggerSetup.registry (snd (LoggerSetup.setup_logger name l1 st))) ->
  fst (LoggerSetup.setup_logger name l2 st2)
  = Ret {| LoggerSetup.lg_level := Some l2;
           LoggerSetup.lg_handlers :=
             [LoggerSetup.StreamHandler l1 LoggerSetup.console_format;
              LoggerSetup.FileHandler
                (LoggerSetup.log_filename (LoggerSetup.today st)) l1
                LoggerSetup.file_format] |} /\
  LoggerSetup.opened (snd (LoggerSetup.setup_logger name l2 st2))
  = (LoggerSetup.opened st2
       ++ [LoggerSetup.log_filename (LoggerSetup.today st2)])%list.
Proof.
  intros name l1 l2 st st2 Hnew Hkept.
  cbn in Hkept. rewrite get_put_logger in Hkept. rewrite Hnew in Hkept.
  cbn in Hkept.
  split; [|reflexivity].
  cbn. rewrite Hkept. cbn. reflexivity.
Qed.

(** The logger of main.py set up at [INFO] on the first of November, the
    logger of another module set up after it, and the first set up again
    at [DEBUG] on the second. *)
Lemma setup_logger_twice_witness :
  let st1 := snd (LoggerSetup.setup_logger "src.main" Logger.INFO
                    Scenario.first_of_november) in
  let st2 := snd (LoggerSetup.setup_logger "src.email_handler" Logger.DEBUG st1) in
  let next_day :=
    {| LoggerSetup.registry := LoggerSetup.registry st2;
       LoggerSetup.dirs := LoggerSetup.dirs st2;
       LoggerSetup.opened := LoggerSetup.opened st2;
       LoggerSetup.today := "20261102" |} in
  fst (LoggerSetup.setup_logger "src.main" Logger.DEBUG next_day)
  = Ret {| LoggerSetup.lg_level := Some Logger.DEBUG;
           LoggerSetup.lg_handlers :=
             [LoggerSetup.StreamHandler Logger.INFO LoggerSetup.console_format;
              LoggerSetup.FileHandler "logs/email_automation_20261101.log"
                Logger.INFO LoggerSetup.file_format] |} /\
  LoggerSetup.opened (snd (LoggerSetup.setup_logger "src.main" Logger.DEBUG next_day))
  = ["logs/email_automation_20261101.log";
     "logs/email_automation_20261101.log";
     "logs/email_automation_20261102.log"].
Proof.
  intros st1 st2 next_day.
  apply (@setup_logger_twice "src.main" Logger.INFO Logger.DEBUG
           Scenario.first_of_november next_day).
  - reflexivity.
  - reflexivity.
Defined.
